(** * git-cleanup: the branch reconciliation of [src/lib/git-cleanup.js]

    A shallow embedding of the module and the proofs of its specified
    properties.

    JavaScript strings are sequences of UTF-16 code units; they are modelled
    as lists of code units ([N]).  The command runner ([child_process.exec])
    is an external collaborator: it is a parameter of the development, a
    transition function on an arbitrary type of worlds.  The commands issued,
    the console output and the [lastIndex] of the module-level regular
    expression are the state that the functions thread. *)

From Stdlib Require Import Ascii String DecimalString.
From Stdlib Require Import Bool Arith NArith ZArith Lia List.
Import ListNotations.

(** ** Strings *)

Module Str.

Definition char := N.
Definition str := list char.

(** A string literal of the source, as code units. *)
Definition lit (s : string) : str := map N_of_ascii (list_ascii_of_string s).

Fixpoint eqb (a b : str) : bool :=
  match a, b with
  | [], [] => true
  | x :: a', y :: b' => N.eqb x y && eqb a' b'
  | _, _ => false
  end.

(** [s.startsWith(p)] *)
Fixpoint startsWith (s p : str) {struct p} : bool :=
  match p, s with
  | [], _ => true
  | y :: p', x :: s' => N.eqb x y && startsWith s' p'
  | _ :: _, [] => false
  end.

(** [s.endsWith(p)]: [p] is not longer than [s] and the last [length p]
    code units of [s] are [p]. *)
Definition endsWith (s p : str) : bool :=
  (length p <=? length s) && eqb (skipn (length s - length p) s) p.

(** [s.includes(p)] *)
Fixpoint includes (s p : str) : bool :=
  startsWith s p ||
  match s with
  | [] => false
  | _ :: s' => includes s' p
  end.

(** [s.split(sep)] for a separator of one code unit. *)
Fixpoint split (sep : char) (s : str) : list str :=
  match s with
  | [] => [[]]
  | c :: s' =>
      if N.eqb c sep then [] :: split sep s'
      else match split sep s' with
           | h :: t => (c :: h) :: t
           | [] => [[c]]
           end
  end.

(** [xs.join(sep)] *)
Fixpoint join (sep : str) (xs : list str) : str :=
  match xs with
  | [] => []
  | [x] => x
  | x :: xs' => x ++ sep ++ join sep xs'
  end.

(** The line terminators of ECMAScript: LF, CR, LS, PS. *)
Definition isLineTerminator (c : char) : bool :=
  N.eqb c 10 || N.eqb c 13 || N.eqb c 8232 || N.eqb c 8233.

(** The class [\s] of ECMAScript regular expressions: white space
    (TAB, VT, FF, SP, NBSP, ZWNBSP and the category Zs) and the line
    terminators. *)
Definition isWhitespace (c : char) : bool :=
  N.eqb c 9 || N.eqb c 11 || N.eqb c 12 || N.eqb c 32 || N.eqb c 160
  || N.eqb c 5760 || (N.leb 8192 c && N.leb c 8202)
  || N.eqb c 8239 || N.eqb c 8287 || N.eqb c 12288 || N.eqb c 65279
  || isLineTerminator c.

(** [String(n)] for an integer. *)
Definition ofZ (n : Z) : str :=
  lit (NilZero.string_of_int (Z.to_int n)).

End Str.

Import Str.

(** ** The Branch List Parser *)

(** [str.replace(/\s/g, '')] *)
Definition stripWhitespace (s : str) : str :=
  filter (fun c => negb (isWhitespace c)) s.

(** A string is truthy when it is not empty. *)
Definition nonEmpty (s : str) : bool :=
  match s with
  | [] => false
  | _ :: _ => true
  end.

(** [sanitizeBranchOutput], lines 46-49. *)
Definition sanitizeBranchOutput (output : str) : list str :=
  filter nonEmpty (map stripWhitespace (split 10%N output)).

(** ** Values and flags *)

(** The JavaScript values that flags and the main branch name range over. *)
Inductive jsval :=
| JUndefined
| JNull
| JTrue
| JStr (s : str).

Definition truthy (v : jsval) : bool :=
  match v with
  | JTrue => true
  | JStr s => nonEmpty s
  | JUndefined | JNull => false
  end.

(** The string a value contributes to a template literal. *)
Definition toStr (v : jsval) : str :=
  match v with
  | JUndefined => lit "undefined"
  | JNull => lit "null"
  | JTrue => lit "true"
  | JStr s => s
  end.

(** [flagNames], lines 5-10. *)
Inductive flagName := HELP | DRY_RUN | FORCE | HEAD.

Definition flagName_eqb (a b : flagName) : bool :=
  match a, b with
  | HELP, HELP | DRY_RUN, DRY_RUN | FORCE, FORCE | HEAD, HEAD => true
  | _, _ => false
  end.

(** The flag object: a property that was never written reads [undefined]. *)
Definition flagSet := flagName -> jsval.

Definition noFlags : flagSet := fun _ => JUndefined.

Definition setFlag (flags : flagSet) (n : flagName) (v : jsval) : flagSet :=
  fun m => if flagName_eqb m n then v else flags m.

Record availableFlag := {
  name : flagName;
  hasValue : bool;
  keys : list str;
  purpose : str
}.

(** [availableFlags], lines 12-34 ([getMessage] is given below). *)
Definition availableFlags : list availableFlag :=
  [ {| name := HELP; hasValue := false;
       keys := [lit "-h"; lit "--help"];
       purpose := lit "Shows overview of all available flags" |};
    {| name := DRY_RUN; hasValue := false;
       keys := [lit "--dry-run"];
       purpose := lit "Performs dry run which only logs what it WOULD do." |};
    {| name := FORCE; hasValue := false;
       keys := [lit "-f"; lit "--force"];
       purpose := lit "Branches will be force-deleted, use at own risk" |};
    {| name := HEAD; hasValue := true;
       keys := [lit "--head"];
       purpose := lit "Manually override head branch" |} ].

Definition newline : str := [10%N].

(** The [getMessage] of each entry of [availableFlags]. *)
Definition getMessage (n : flagName) (value : jsval) : str :=
  match n with
  | HELP =>
      lit "These are the available commands:" ++ newline ++ lit "  "
      ++ join (newline ++ lit "  ")
           (map (fun f => join (lit ", ") (keys f)
                          ++ (if hasValue f then lit " <value>" else [])
                          ++ lit " | " ++ purpose f)
                availableFlags)
      ++ newline ++ lit "  "
  | DRY_RUN => lit "Doing dry run! Will not delete any branches."
  | FORCE => lit "Using force flag. Branches will be deleted with force."
  | HEAD => lit "Using '" ++ toStr value ++ lit "' as head branch."
  end.

(** ** The command runner and the state of a run *)

(** What [child_process.exec] hands to its callback: the message of the
    error, when there is one, and the two outputs. *)
Record execCallback := {
  error : option str;
  stdout : str;
  stderr : str
}.

(** The external collaborator: running a command in a world answers the
    callback and leaves a new world. *)
Class Runner := {
  World : Type;
  doExec : World -> str -> execCallback * World
}.

Inductive consoleEntry :=
| Log (message : str)
| LogWith (message : str) (args : list str)
| Err (message : str).

Inductive result (A : Type) :=
| Resolved (a : A)
| Rejected (reason : str).
Arguments Resolved {A} a.
Arguments Rejected {A} reason.

Section Model.
Context {R : Runner}.

(** The state of the process: the world of the runner, the commands handed
    to it so far, the console, and the [lastIndex] of [HEAD_BRANCH_REGEX],
    which lives as long as the module. *)
Record state := {
  world : World;
  issued : list str;
  console : list consoleEntry;
  lastIndex : nat
}.

Definition M (A : Type) := state -> result A * state.

Definition ret {A} (a : A) : M A := fun st => (Resolved a, st).

Definition bind {A B} (m : M A) (k : A -> M B) : M B :=
  fun st =>
    match m st with
    | (Resolved a, st') => k a st'
    | (Rejected e, st') => (Rejected e, st')
    end.

(** [try { body } catch (error) { handler(error) }] at the top of a
    function that returns nothing. *)
Definition tryCatch (body : M unit) (handler : str -> state -> state)
  : state -> state :=
  fun st =>
    match body st with
    | (Resolved _, st') => st'
    | (Rejected e, st') => handler e st'
    end.

Definition emit (e : consoleEntry) (st : state) : state :=
  {| world := world st; issued := issued st;
     console := console st ++ [e]; lastIndex := lastIndex st |}.

Definition consoleLog (message : str) : M unit :=
  fun st => (Resolved tt, emit (Log message) st).

Definition consoleError (message : str) : M unit :=
  fun st => (Resolved tt, emit (Err message) st).

(** [exec], lines 36-44. *)
Definition exec (command : str) (ignoreStderr : bool) : M str :=
  fun st =>
    let (cb, w) := doExec (world st) command in
    let st' := {| world := w; issued := issued st ++ [command];
                  console := console st; lastIndex := lastIndex st |} in
    match error cb with
    | Some message => (Rejected (lit "Error: " ++ message), st')
    | None =>
        if nonEmpty (stderr cb) && negb ignoreStderr
        then (Rejected (lit "Stderr: " ++ stderr cb), st')
        else (Resolved (stdout cb), st')
    end.

End Model.

Notation "x <- m ;; k" := (bind m (fun x => k))
  (at level 61, m at next level, right associativity).
Notation "m ;;; k" := (bind m (fun _ => k))
  (at level 61, right associativity).

(** ** The pattern for the head branch *)

(** What follows [p] in [s], when [s] starts with [p]. *)
Fixpoint afterPrefix (p s : str) {struct p} : option str :=
  match p, s with
  | [], _ => Some s
  | y :: p', x :: s' => if N.eqb x y then afterPrefix p' s' else None
  | _ :: _, [] => None
  end.

Fixpoint takeWhile (f : char -> bool) (s : str) : str :=
  match s with
  | [] => []
  | c :: s' => if f c then c :: takeWhile f s' else []
  end.

(** One attempt of [/HEAD\sbranch:\s(.+)/] at the start of [s]: the capture
    and the length of the match.  The dot matches every code unit but the
    line terminators and the quantifier is greedy. *)
Definition matchHeadBranch (s : str) : option (str * nat) :=
  match afterPrefix (lit "HEAD") s with
  | Some (w1 :: s1) =>
      if isWhitespace w1 then
        match afterPrefix (lit "branch:") s1 with
        | Some (w2 :: s2) =>
            if isWhitespace w2 then
              match takeWhile (fun c => negb (isLineTerminator c)) s2 with
              | [] => None
              | capture => Some (capture, 13 + length capture)
              end
            else None
        | _ => None
        end
      else None
  | _ => None
  end.

(** The leftmost match in [s], which starts at [index] of the input: the
    capture and the index where the match ends. *)
Fixpoint searchHeadBranch (s : str) (index : nat) : option (str * nat) :=
  match matchHeadBranch s with
  | Some (capture, len) => Some (capture, index + len)
  | None =>
      match s with
      | [] => None
      | _ :: s' => searchHeadBranch s' (S index)
      end
  end.

(** [RegExp.prototype.exec] for the global [HEAD_BRANCH_REGEX] of line 3:
    the search starts at [lastIndex]; a match moves [lastIndex] to its end
    and a failure resets it to 0.  The result is the first capture group. *)
Definition regexExec (input : str) (lastIndex : nat) : option str * nat :=
  if length input <? lastIndex then (None, 0)
  else match searchHeadBranch (skipn lastIndex input) lastIndex with
       | Some (capture, e) => (Some capture, e)
       | None => (None, 0)
       end.

(** The text has a match of the pattern somewhere. *)
Definition HasHeadBranch (text : str) : Prop :=
  exists before w1 w2 c rest,
    text = before ++ lit "HEAD" ++ [w1] ++ lit "branch:" ++ [w2] ++ c :: rest
    /\ isWhitespace w1 = true /\ isWhitespace w2 = true
    /\ isLineTerminator c = false.

(** ** The Branch Diff Engine *)

(** [branchesToDelete], lines 103-105. *)
Definition branchesToDelete (localBranches remoteBranches : list str)
    (mainBranchName : jsval) : list str :=
  filter (fun localBranch =>
            negb (existsb (fun remoteBranch => endsWith remoteBranch localBranch)
                    remoteBranches)
            && negb (Str.eqb localBranch (lit "*" ++ toStr mainBranchName)))
         localBranches.

(** The words of the specification: a remote branch name ends with the
    token. *)
Definition EndsWith (remoteBranch token : str) : Prop :=
  exists front, remoteBranch = front ++ token.

Definition Stale (remoteBranches : list str) (mainBranch : str) (token : str)
  : Prop :=
  (forall remoteBranch, In remoteBranch remoteBranches ->
                        ~ EndsWith remoteBranch token)
  /\ token <> lit "*" ++ mainBranch.

(** [Selection P l l']: [l'] keeps, in the order of [l], exactly the
    entries of [l] that satisfy [P]. *)
Inductive Selection (P : str -> Prop) : list str -> list str -> Prop :=
| Selection_nil : Selection P [] []
| Selection_keep t l l' : P t -> Selection P l l' -> Selection P (t :: l) (t :: l')
| Selection_drop t l l' : ~ P t -> Selection P l l' -> Selection P (t :: l) l'.

(** ** The messages *)

(** [availableFlags.find((flag) => flag.name === flagNames.HEAD).keys[0]],
    line 73; the entry is there, so the lookup cannot throw. *)
Definition headKey : str :=
  match find (fun f => flagName_eqb (name f) HEAD) availableFlags with
  | Some f => hd (lit "undefined") (keys f)
  | None => []
  end.

(** The messages of lines 73, 77, 97 and 125. *)
Definition cannotFindHeadMessage : str :=
  lit "ERROR: Cannot find head branch! Use " ++ headKey
  ++ lit " flag to manually override head branch. Also if not already done, try switching to your main branch, then try again.".

Definition detectedMessage (branch : str) : str :=
  lit "Detected '" ++ branch ++ lit "' as default branch.".

Definition notOnMainMessage (m : str) : str :=
  lit "Not on " ++ m ++ lit " branch! Switch to " ++ m
  ++ lit " branch first and then try again. If " ++ m
  ++ lit " is not your repository's default branch you need to change that in git-cleanup.".

Definition notFullyMergedMessage (branch m : str) : str :=
  lit "ERROR: Git reports that branch " ++ branch
  ++ lit " is not fully merged yet. Execute 'git pull' and try cleanup again. If that doesn't help then it seems there were branch commits that didn't make it into "
  ++ m ++ lit ".".

(** The command of line 115. *)
Definition deleteCommand (flags : flagSet) (branch : str) : str :=
  lit "git branch " ++ (if truthy (flags FORCE) then lit "-D" else lit "-d")
  ++ lit " " ++ branch.

(** The report of line 132. *)
Definition deletedMessage (amountDeletedBranches : Z) : str :=
  lit "Deleted " ++ ofZ amountDeletedBranches ++ lit " local "
  ++ (if Z.eqb amountDeletedBranches 1 then lit "branch" else lit "branches")
  ++ lit "!".

(** A command that deletes a branch, in either variant. *)
Definition isDeleteCommand (command : str) : bool :=
  startsWith command (lit "git branch -d ")
  || startsWith command (lit "git branch -D ").

(** The token without the marker of the current branch in front. *)
Definition stripMarker (token : str) : str :=
  match token with
  | c :: rest => if N.eqb c 42 then rest else token
  | [] => []
  end.

(** ** The functions of the module *)

Section Functions.
Context {R : Runner}.

(** The [find] of line 53: the first available flag that is not active yet
    and has the argument among its keys. *)
Definition applicable (currentFlags : flagSet) (arg : str)
  : option availableFlag :=
  find (fun f => negb (truthy (currentFlags (name f)))
                 && existsb (fun flagKey => Str.eqb flagKey arg) (keys f))
       availableFlags.

(** The callback of the [reduce] of [getActiveFlags], lines 52-63, run over
    the arguments from [index] on. *)
Fixpoint activeFlagsFrom (args : list str) (index : nat) (rest : list str)
    (currentFlags : flagSet) (st : state) : flagSet * state :=
  match rest with
  | [] => (currentFlags, st)
  | arg :: rest' =>
      match applicable currentFlags arg with
      | Some applicableFlag =>
          let value :=
            if hasValue applicableFlag
            then match nth_error args (index + 1) with
                 | Some v => JStr v
                 | None => JUndefined
                 end
            else JTrue in
          activeFlagsFrom args (S index) rest'
            (setFlag currentFlags (name applicableFlag) value)
            (emit (Log (getMessage (name applicableFlag) value)) st)
      | None => activeFlagsFrom args (S index) rest' currentFlags st
      end
  end.

(** [getActiveFlags], lines 51-64. *)
Definition getActiveFlags (args : list str) (st : state) : flagSet * state :=
  activeFlagsFrom args 0 args noFlags st.

(** [HEAD_BRANCH_REGEX.exec(input)] on the regular expression of the
    module. *)
Definition headBranchRegexExec (input : str) : M (option str) :=
  fun st =>
    let (regexResult, i) := regexExec input (lastIndex st) in
    (Resolved regexResult,
     {| world := world st; issued := issued st; console := console st;
        lastIndex := i |}).

(** [getMainBranch], lines 66-79. *)
Definition getMainBranch (flags : flagSet) : M jsval :=
  if truthy (flags HEAD) then ret (flags HEAD)
  else
    remoteInfo <- exec (lit "git remote show origin") false ;;
    regexResult <- headBranchRegexExec remoteInfo ;;
    match regexResult with
    | None => consoleError cannotFindHeadMessage ;;; ret JNull
    | Some capture => consoleLog (detectedMessage capture) ;;; ret (JStr capture)
    end.

(** The chain of promises built by the [reduce] of lines 111-131: one
    candidate after the other, with the running [amountDeletedBranches]. *)
Fixpoint deleteBranches (flags : flagSet) (mainBranchName : jsval)
    (branches : list str) (amountDeletedBranches : Z) : M Z :=
  match branches with
  | [] => ret amountDeletedBranches
  | branch :: rest =>
      consoleLog (lit "Deleting " ++ branch ++ lit " ...") ;;;
      if truthy (flags DRY_RUN) then
        consoleLog (lit "DRY RUN: Would execute '" ++ deleteCommand flags branch
                    ++ lit "' now.") ;;;
        deleteBranches flags mainBranchName rest (amountDeletedBranches - 1)
      else
        fun st =>
          match exec (deleteCommand flags branch) false st with
          | (Resolved _, st') =>
              deleteBranches flags mainBranchName rest amountDeletedBranches st'
          | (Rejected error, st') =>
              let errorMessage :=
                if includes error (lit "not fully merged")
                then notFullyMergedMessage branch (toStr mainBranchName)
                else error in
              deleteBranches flags mainBranchName rest (amountDeletedBranches - 1)
                (emit (Err errorMessage) st')
          end
  end.

(** [currentBranch !== `*${mainBranchName}`], line 96: [currentBranch] is
    [undefined] when [find] found nothing. *)
Definition notOnMain (currentBranch : option str) (mainBranchName : jsval)
  : bool :=
  match currentBranch with
  | Some b => negb (Str.eqb b (lit "*" ++ toStr mainBranchName))
  | None => true
  end.

(** The body of the [try] block, lines 91-132. *)
Definition cleanupBody (flags : flagSet) : M unit :=
  mainBranchName <- getMainBranch flags ;;
  if negb (truthy mainBranchName) then ret tt
  else
    localStdout <- exec (lit "git branch") false ;;
    let localBranches := sanitizeBranchOutput localStdout in
    let currentBranch :=
      find (fun localBranch => includes localBranch (lit "*")) localBranches in
    if notOnMain currentBranch mainBranchName then
      consoleLog (notOnMainMessage (toStr mainBranchName))
    else
      exec (lit "git fetch -p") true ;;;
      remoteStdout <- exec (lit "git branch -r") false ;;
      let remoteBranches := sanitizeBranchOutput remoteStdout in
      let toDelete :=
        branchesToDelete localBranches remoteBranches mainBranchName in
      match toDelete with
      | [] => consoleLog (lit "No local branches need to be deleted.")
      | _ :: _ =>
          amountDeletedBranches <-
            deleteBranches flags mainBranchName toDelete
              (Z.of_nat (length toDelete)) ;;
          consoleLog (deletedMessage amountDeletedBranches)
      end.

(** The greeting, lines 82-85. *)
Definition announce (arguments : list str) (st : state) : state :=
  let st := emit (Log (lit "Starting local branch cleanup ...")) st in
  match arguments with
  | [] => st
  | _ :: _ => emit (LogWith (lit "  with arguments:") arguments) st
  end.

(** The exported function, lines 81-136. *)
Definition cleanup (arguments : list str) (st : state) : state :=
  let (flags, st) := getActiveFlags arguments (announce arguments st) in
  if truthy (flags HELP) then st
  else tryCatch (cleanupBody flags) (fun error => emit (Err error)) st.

(** *** Stages of a run *)

(** The run gets past the flags: [flags] are active, help was not asked
    for, and the [try] block starts in [st0]. *)
Definition Starts (arguments : list str) (st : state) (flags : flagSet)
    (st0 : state) : Prop :=
  getActiveFlags arguments (announce arguments st) = (flags, st0)
  /\ truthy (flags HELP) = false.

(** The run resolves [mainBranchName] and lists [localBranches]: it is
    about to validate the state of the repository in [st2]. *)
Definition ReachesValidator (arguments : list str) (st : state)
    (flags : flagSet) (mainBranchName : jsval) (localBranches : list str)
    (st2 : state) : Prop :=
  exists st0 st1 localStdout,
    Starts arguments st flags st0
    /\ getMainBranch flags st0 = (Resolved mainBranchName, st1)
    /\ truthy mainBranchName = true
    /\ exec (lit "git branch") false st1 = (Resolved localStdout, st2)
    /\ localBranches = sanitizeBranchOutput localStdout.

(** The run passes the validator, fetches and lists the remote branches:
    it is about to decide on the candidates [toDelete] in [st4]. *)
Definition ReachesDeletion (arguments : list str) (st : state)
    (flags : flagSet) (mainBranchName : jsval) (toDelete : list str)
    (st4 : state) : Prop :=
  exists localBranches st2 fetched st3 remoteStdout,
    ReachesValidator arguments st flags mainBranchName localBranches st2
    /\ find (fun b => includes b (lit "*")) localBranches
       = Some (lit "*" ++ toStr mainBranchName)
    /\ exec (lit "git fetch -p") true st2 = (Resolved fetched, st3)
    /\ exec (lit "git branch -r") false st3 = (Resolved remoteStdout, st4)
    /\ toDelete = branchesToDelete localBranches
                    (sanitizeBranchOutput remoteStdout) mainBranchName.

(** A command succeeds for [exec] (without [ignoreStderr]) when the runner
    reports no error and writes nothing to the error output. *)
Definition succeeded (cb : execCallback) : bool :=
  match error cb with
  | Some _ => false
  | None => negb (nonEmpty (stderr cb))
  end.

(** How many of the commands succeed when the runner gets them one after
    the other from the world [w]. *)
Fixpoint successes (w : World) (commands : list str) : nat :=
  match commands with
  | [] => 0
  | command :: rest =>
      let (cb, w') := doExec w command in
      (if succeeded cb then 1 else 0) + successes w' rest
  end.

(** The commands of the resolver. *)
Definition resolution (flags : flagSet) : list str :=
  if truthy (flags HEAD) then [] else [lit "git remote show origin"].

(** Every command that [m] hands to the runner satisfies [P]. *)
Definition Issues {A : Type} (P : str -> Prop) (m : M A) : Prop :=
  forall st, exists new,
    issued (snd (m st)) = issued st ++ new /\ Forall P new.

End Functions.

(** ** Sample runners *)

(** A runner without memory: every command is answered from a table. *)
Definition tableRunner (table : str -> execCallback) : Runner :=
  {| World := unit; doExec := fun w command => (table command, w) |}.

Definition succeedWith (out : str) : execCallback :=
  {| error := None; stdout := out; stderr := [] |}.

Definition failWith (message : str) : execCallback :=
  {| error := Some message; stdout := []; stderr := [] |}.

Definition start {R : Runner} (w : World) : state :=
  {| world := w; issued := []; console := []; lastIndex := 0 |}.

(** A repository as the runner sees it: the three listings are answered
    from the given texts, the safe deletion of [feature-b] fails because the
    branch is not merged, and every other command succeeds silently. *)
Definition repoTable (remoteInfo localListing remoteListing : str)
    (command : str) : execCallback :=
  if Str.eqb command (lit "git remote show origin") then
    succeedWith remoteInfo
  else if Str.eqb command (lit "git branch") then
    succeedWith localListing
  else if Str.eqb command (lit "git branch -r") then
    succeedWith remoteListing
  else if Str.eqb command (lit "git branch -d feature-b") then
    failWith (lit "Command failed: git branch -d feature-b" ++ newline
              ++ lit "error: The branch 'feature-b' is not fully merged.")
  else succeedWith [].

Definition sampleRemoteInfo : str :=
  lit "* remote origin" ++ newline
  ++ lit "  HEAD branch: main" ++ newline
  ++ lit "  Remote branch:" ++ newline.

Definition sampleRemoteListing : str :=
  lit "  origin/HEAD -> origin/main" ++ newline
  ++ lit "  origin/feature-a" ++ newline
  ++ lit "  origin/main" ++ newline.

(** On [main], with [feature-a] still on the remote and [feature-b] and
    [feature-c] gone from it. *)
Definition sampleRunner : Runner :=
  tableRunner
    (repoTable sampleRemoteInfo
       (lit "  feature-a" ++ newline ++ lit "  feature-b" ++ newline
        ++ lit "  feature-c" ++ newline ++ lit "* main" ++ newline)
       sampleRemoteListing).

Definition sampleStart : @state sampleRunner := @start sampleRunner tt.

(** The flags of [--dry-run]. *)
Definition dryRunFlags : flagSet := setFlag noFlags DRY_RUN JTrue.

(** The same repository with [feature-b] checked out. *)
Definition offMainRunner : Runner :=
  tableRunner
    (repoTable sampleRemoteInfo
       (lit "  feature-a" ++ newline ++ lit "* feature-b" ++ newline
        ++ lit "  feature-c" ++ newline ++ lit "  main" ++ newline)
       sampleRemoteListing).

Definition offMainStart : @state offMainRunner := @start offMainRunner tt.

(** A listing of local branches without a current branch. *)
Definition unmarkedRunner : Runner :=
  tableRunner
    (repoTable sampleRemoteInfo
       (lit "  feature-a" ++ newline ++ lit "  main" ++ newline)
       sampleRemoteListing).

Definition unmarkedStart : @state unmarkedRunner := @start unmarkedRunner tt.

(** A remote that does not tell its head branch. *)
Definition headlessRunner : Runner :=
  tableRunner
    (repoTable (lit "* remote origin" ++ newline
                ++ lit "  Fetch URL: git@example.org:project.git" ++ newline)
       (lit "  feature-a" ++ newline ++ lit "* main" ++ newline)
       sampleRemoteListing).

Definition headlessStart : @state headlessRunner := @start headlessRunner tt.

(** A table with the answer to one command replaced. *)
Definition overrideTable (command : str) (answer : execCallback)
    (table : str -> execCallback) : str -> execCallback :=
  fun c => if Str.eqb c command then answer else table c.

Definition sampleLocalListing : str :=
  lit "  feature-a" ++ newline ++ lit "  feature-b" ++ newline
  ++ lit "  feature-c" ++ newline ++ lit "* main" ++ newline.

Definition sampleTable : str -> execCallback :=
  repoTable sampleRemoteInfo sampleLocalListing sampleRemoteListing.

(** The sample repository with a fetch that reports on the error output,
    as [git fetch] does when it prunes. *)
Definition chattyFetchRunner : Runner :=
  tableRunner
    (overrideTable (lit "git fetch -p")
       {| error := None; stdout := [];
          stderr := lit " - [deleted] (none) -> origin/feature-b" |}
       sampleTable).

Definition chattyFetchStart : @state chattyFetchRunner :=
  @start chattyFetchRunner tt.

(** The sample repository without a connection to the remote. *)
Definition offlineRunner : Runner :=
  tableRunner
    (overrideTable (lit "git fetch -p")
       (failWith (lit "Command failed: git fetch -p"))
       sampleTable).

Definition offlineStart : @state offlineRunner := @start offlineRunner tt.

(** A directory that is no repository: the listings fail. *)
Definition noRepositoryRunner : Runner :=
  tableRunner
    (fun _ => failWith (lit "fatal: not a git repository"))  .

Definition noRepositoryStart : @state noRepositoryRunner :=
  @start noRepositoryRunner tt.

(** The sample repository with every local branch still on the remote. *)
Definition cleanRunner : Runner :=
  tableRunner
    (repoTable sampleRemoteInfo
       (lit "  feature-a" ++ newline ++ lit "* main" ++ newline)
       sampleRemoteListing).

Definition cleanStart : @state cleanRunner := @start cleanRunner tt.

(** The sample repository with a remote listing that warns on the error
    stream. *)
Definition warningRunner : Runner :=
  tableRunner
    (overrideTable (lit "git branch -r")
       {| error := None; stdout := sampleRemoteListing;
          stderr := lit "warning: ignoring broken ref" |}
       sampleTable).

Definition warningStart : @state warningRunner := @start warningRunner tt.

(** An entry of [console.error]. *)
Definition isErr (e : consoleEntry) : bool :=
  match e with
  | Err _ => true
  | Log _ | LogWith _ _ => false
  end.

(** What [exec] rejects with, lines 39-40. *)
Definition rejection (cb : execCallback) : str :=
  match error cb with
  | Some message => lit "Error: " ++ message
  | None => lit "Stderr: " ++ stderr cb
  end.

(** * Properties *)

(** ** Strings *)

Section StringFacts.

Lemma eqb_spec (a b : str) : Str.eqb a b = true <-> a = b.
Proof.
  revert b; induction a as [|x a IH]; intros [|y b]; simpl;
    try (split; [discriminate | discriminate]); try tauto.
  rewrite andb_true_iff, N.eqb_eq, IH.
  split; [intros [-> ->]; reflexivity | intros E; injection E; auto].
Qed.

Lemma eqb_refl (a : str) : Str.eqb a a = true.
Proof. apply eqb_spec; reflexivity. Qed.

Lemma eqb_neq (a b : str) : Str.eqb a b = false <-> a <> b.
Proof.
  rewrite <- eqb_spec. destruct (Str.eqb a b); split; congruence.
Qed.

Lemma startsWith_spec (s p : str) :
  startsWith s p = true <-> exists rest, s = p ++ rest.
Proof.
  revert s; induction p as [|y p IH]; intros s; simpl.
  - split; [exists s; reflexivity | reflexivity].
  - destruct s as [|x s].
    + split; [discriminate | intros [rest E]; discriminate].
    + rewrite andb_true_iff, N.eqb_eq, IH. split.
      * intros [-> [rest ->]]. exists rest; reflexivity.
      * intros [rest E]. injection E as -> ->. split; [reflexivity | eauto].
Qed.

Lemma endsWith_spec (s p : str) : endsWith s p = true <-> EndsWith s p.
Proof.
  unfold endsWith, EndsWith.
  rewrite andb_true_iff, Nat.leb_le, eqb_spec. split.
  - intros [_ E]. exists (firstn (length s - length p) s).
    rewrite <- E at 2. symmetry; apply firstn_skipn.
  - intros [front ->]. rewrite length_app. split; [lia|].
    replace (length front + length p - length p) with (length front + 0) by lia.
    rewrite skipn_app, Nat.add_0_r, skipn_all.
    replace (length front - length front) with 0 by lia. reflexivity.
Qed.

Lemma includes_marker (s : str) : includes s (lit "*") = true <-> In 42%N s.
Proof.
  induction s as [|c s IH]; simpl.
  - split; [discriminate | tauto].
  - rewrite orb_true_iff, IH, andb_true_r, N.eqb_eq.
    split; intros [H|H]; auto.
Qed.

Lemma afterPrefix_spec (p s rest : str) :
  afterPrefix p s = Some rest <-> s = p ++ rest.
Proof.
  revert s; induction p as [|y p IH]; intros s; simpl.
  - split; [intros E; injection E; auto | intros ->; reflexivity].
  - destruct s as [|x s].
    + split; discriminate.
    + destruct (N.eqb_spec x y) as [->|N].
      * rewrite IH. split; [intros ->; reflexivity | intros E; injection E; auto].
      * split; [discriminate | intros E; injection E; congruence].
Qed.

End StringFacts.

(** ** The Branch List Parser *)

Section Parser.

Lemma split_not_nil (sep : char) (s : str) : split sep s <> [].
Proof.
  destruct s as [|c s]; simpl; [discriminate|].
  destruct (N.eqb c sep); [discriminate|].
  destruct (split sep s); discriminate.
Qed.

Lemma stripWhitespace_clean (s : str) :
  Forall (fun c => isWhitespace c = false) (stripWhitespace s).
Proof.
  apply Forall_forall. intros c H.
  apply filter_In in H. destruct H as [_ H].
  now apply negb_true_iff in H.
Qed.

Lemma nonEmpty_spec (s : str) : nonEmpty s = true <-> s <> [].
Proof. destruct s; simpl; split; congruence. Qed.

Lemma concat_nonEmpty (l : list str) : concat (filter nonEmpty l) = concat l.
Proof.
  induction l as [|[|c s] l IH]; simpl; [reflexivity | exact IH |].
  now rewrite IH.
Qed.

(** Nothing but white space is lost between the lines. *)
Lemma concat_strip_split (s : str) :
  concat (map stripWhitespace (split 10%N s)) = stripWhitespace s.
Proof.
  induction s as [|c s IH]; [reflexivity|].
  simpl split. destruct (N.eqb_spec c 10%N) as [->|N].
  - simpl. exact IH.
  - pose proof (split_not_nil 10%N s) as NE.
    destruct (split 10%N s) as [|h t]; [congruence|].
    simpl in *. unfold stripWhitespace in *. simpl.
    destruct (negb (isWhitespace c)); simpl; rewrite <- IH; reflexivity.
Qed.

Lemma split_line (line : str) :
  ~ In 10%N line -> split 10%N line = [line].
Proof.
  induction line as [|c line IH]; intros H; [reflexivity|].
  simpl. destruct (N.eqb_spec c 10%N) as [->|_].
  - exfalso; apply H; left; reflexivity.
  - rewrite IH; [reflexivity | intros I; apply H; right; exact I].
Qed.

Lemma split_line_break (line rest : str) :
  ~ In 10%N line ->
  split 10%N (line ++ newline ++ rest) = line :: split 10%N rest.
Proof.
  induction line as [|c line IH]; intros H; [reflexivity|].
  simpl. destruct (N.eqb_spec c 10%N) as [->|_].
  - exfalso; apply H; left; reflexivity.
  - simpl in IH. rewrite IH; [reflexivity | intros I; apply H; right; exact I].
Qed.

(** [split] undoes [join]: the lines between the line breaks. *)
Lemma split_join (line : str) (lines : list str) :
  Forall (fun l => ~ In 10%N l) (line :: lines) ->
  split 10%N (join newline (line :: lines)) = line :: lines.
Proof.
  revert line; induction lines as [|l2 lines IH]; intros line H;
    inversion_clear H as [|? ? H1 H2].
  - now apply split_line.
  - change (join newline (line :: l2 :: lines))
      with (line ++ newline ++ join newline (l2 :: lines)).
    rewrite split_line_break by exact H1.
    now rewrite IH.
Qed.

(** C7: for every input the Branch List Parser returns tokens that are not
    empty and hold no white space character; the tokens are the lines of the
    input, in their order, stripped of all white space, without the empty
    ones; nothing but white space is lost; and the empty input has no
    token. *)
Theorem sanitizeBranchOutput_tokens :
  (forall output,
      Forall (fun token =>
                token <> [] /\ Forall (fun c => isWhitespace c = false) token)
             (sanitizeBranchOutput output))
  /\ (forall line lines,
         Forall (fun l => ~ In 10%N l) (line :: lines) ->
         sanitizeBranchOutput (join newline (line :: lines))
         = filter (fun l => negb (Str.eqb l []))
             (map (filter (fun c => negb (isWhitespace c))) (line :: lines)))
  /\ (forall output,
         concat (sanitizeBranchOutput output)
         = filter (fun c => negb (isWhitespace c)) output)
  /\ sanitizeBranchOutput [] = [].
Proof.
  split; [|split; [|split]].
  - intros output. apply Forall_forall. intros token H.
    unfold sanitizeBranchOutput in H.
    apply filter_In in H. destruct H as [H NE].
    apply in_map_iff in H. destruct H as [l [<- _]].
    split; [now apply nonEmpty_spec | apply stripWhitespace_clean].
  - intros line lines H. unfold sanitizeBranchOutput.
    rewrite split_join by exact H.
    apply filter_ext. intros [|c l]; reflexivity.
  - intros output. unfold sanitizeBranchOutput.
    rewrite concat_nonEmpty. apply concat_strip_split.
  - reflexivity.
Qed.

(** The parser on a listing of three lines, one of them blank. *)
Lemma sanitizeBranchOutput_tokens_witness :
  Forall (fun l => ~ In 10%N l) [lit "* main"; lit "  "; lit " feature a "]
  /\ sanitizeBranchOutput
       (join newline [lit "* main"; lit "  "; lit " feature a "])
     = [lit "*main"; lit "featurea"].
Proof.
  assert (H : Forall (fun l => ~ In 10%N l)
                [lit "* main"; lit "  "; lit " feature a "]).
  { repeat constructor; vm_compute; intuition discriminate. }
  split; [exact H|].
  destruct sanitizeBranchOutput_tokens as [_ [L _]].
  etransitivity; [exact (L _ _ H) | reflexivity].
Defined.

End Parser.

(** ** The Branch Diff Engine *)

Section DiffEngine.

Lemma existsb_endsWith (remoteBranches : list str) (token : str) :
  existsb (fun remoteBranch => endsWith remoteBranch token) remoteBranches
  = false
  <-> forall remoteBranch, In remoteBranch remoteBranches ->
                           ~ EndsWith remoteBranch token.
Proof.
  induction remoteBranches as [|r rs IH]; simpl.
  - split; [intros _ ? [] | reflexivity].
  - rewrite orb_false_iff, IH. split.
    + intros [E H] r' [<-|I]; [|now apply H].
      rewrite <- endsWith_spec, E. discriminate.
    + intros H. split; [|intros r' I; apply H; now right].
      destruct (endsWith r token) eqn:E; [|reflexivity].
      exfalso. apply (H r); [now left | now apply endsWith_spec].
Qed.

(** The test of the filter decides staleness. *)
Lemma stale_decided (remoteBranches : list str) (m : jsval) (token : str) :
  negb (existsb (fun remoteBranch => endsWith remoteBranch token)
          remoteBranches)
  && negb (Str.eqb token (lit "*" ++ toStr m)) = true
  <-> Stale remoteBranches (toStr m) token.
Proof.
  unfold Stale.
  rewrite andb_true_iff, !negb_true_iff, existsb_endsWith, eqb_neq.
  reflexivity.
Qed.

(** A filter selects what its test decides. *)
Lemma filter_Selection (f : str -> bool) (P : str -> Prop) (l : list str) :
  (forall t, f t = true <-> P t) -> Selection P l (filter f l).
Proof.
  intros D. induction l as [|t l IH]; simpl; [constructor|].
  destruct (f t) eqn:E.
  - apply Selection_keep; [now apply D | exact IH].
  - apply Selection_drop; [|exact IH].
    intros Q. apply D in Q. congruence.
Qed.

(** C1: the Branch Diff Engine keeps a local token if and only if no remote
    branch name ends with it and it is not the marked main branch, in the
    order of the local listing; on the two listings of the specification it
    yields [feature-a, feature-b] and [feature-b]. *)
Theorem branchesToDelete_selects_stale :
  (forall localBranches remoteBranches mainBranchName,
      Selection (Stale remoteBranches (toStr mainBranchName)) localBranches
        (branchesToDelete localBranches remoteBranches mainBranchName))
  /\ branchesToDelete [lit "*main"; lit "feature-a"; lit "feature-b"]
       [lit "origin/main"] (JStr (lit "main"))
     = [lit "feature-a"; lit "feature-b"]
  /\ branchesToDelete [lit "*main"; lit "feature-a"; lit "feature-b"]
       [lit "origin/main"; lit "origin/feature-a"] (JStr (lit "main"))
     = [lit "feature-b"].
Proof.
  split; [|split; reflexivity].
  intros localBranches remoteBranches m.
  apply filter_Selection. intros t. apply stale_decided.
Qed.

(** A selection has exactly the selected entries. *)
Lemma Selection_In (P : str -> Prop) (l l' : list str) :
  Selection P l l' -> forall t, In t l' <-> In t l /\ P t.
Proof.
  induction 1 as [|t0 l l' Pt S IH|t0 l l' Pt S IH]; intros t; simpl.
  - tauto.
  - rewrite IH. split.
    + intros [<-|[I Q]]; auto.
    + intros [[<-|I] Q]; auto.
  - rewrite IH. split.
    + intros [I Q]; auto.
    + intros [[<-|I] Q]; [contradiction | auto].
Qed.

End DiffEngine.

(** ** The pattern for the head branch *)

Section Pattern.

Lemma takeWhile_head (f : char -> bool) (s : str) (c : char) (capture : str) :
  takeWhile f s = c :: capture -> f c = true /\ exists rest, s = c :: rest.
Proof.
  destruct s as [|x s]; simpl; [discriminate|].
  destruct (f x) eqn:E; [|discriminate].
  intros H; injection H as -> _. eauto.
Qed.

(** An attempt that succeeds has found the pattern at the start. *)
Lemma matchHeadBranch_sound (s capture : str) (len : nat) :
  matchHeadBranch s = Some (capture, len) ->
  exists w1 w2 c rest,
    s = lit "HEAD" ++ [w1] ++ lit "branch:" ++ [w2] ++ c :: rest
    /\ isWhitespace w1 = true /\ isWhitespace w2 = true
    /\ isLineTerminator c = false.
Proof.
  unfold matchHeadBranch.
  destruct (afterPrefix (lit "HEAD") s) as [[|w1 s1]|] eqn:E1; try discriminate.
  destruct (isWhitespace w1) eqn:W1; [|discriminate].
  destruct (afterPrefix (lit "branch:") s1) as [[|w2 s2]|] eqn:E2;
    try discriminate.
  destruct (isWhitespace w2) eqn:W2; [|discriminate].
  destruct (takeWhile (fun c => negb (isLineTerminator c)) s2) as [|c cs] eqn:T;
    [discriminate|].
  intros _. apply takeWhile_head in T. destruct T as [L [rest ->]].
  apply afterPrefix_spec in E1, E2. subst s s1.
  exists w1, w2, c, rest. repeat split; auto.
  now apply negb_true_iff in L.
Qed.

(** An attempt at the start of the pattern succeeds. *)
Lemma matchHeadBranch_complete (w1 w2 c : char) (rest : str) :
  isWhitespace w1 = true -> isWhitespace w2 = true ->
  isLineTerminator c = false ->
  exists capture len,
    matchHeadBranch
      (lit "HEAD" ++ [w1] ++ lit "branch:" ++ [w2] ++ c :: rest)
    = Some (c :: capture, len).
Proof.
  intros W1 W2 L. unfold matchHeadBranch.
  change (afterPrefix (lit "HEAD")
            (lit "HEAD" ++ [w1] ++ lit "branch:" ++ [w2] ++ c :: rest))
    with (Some (w1 :: lit "branch:" ++ [w2] ++ c :: rest)).
  cbv beta iota. rewrite W1.
  change (afterPrefix (lit "branch:") (lit "branch:" ++ [w2] ++ c :: rest))
    with (Some (w2 :: c :: rest)).
  cbv beta iota. rewrite W2. simpl takeWhile. rewrite L. simpl negb.
  cbv beta iota.
  eexists _, _. reflexivity.
Qed.

Lemma searchHeadBranch_sound (s : str) (index : nat) (found : str * nat) :
  searchHeadBranch s index = Some found -> HasHeadBranch s.
Proof.
  revert index; induction s as [|x s IH]; intros index; simpl.
  - destruct (matchHeadBranch []) as [[capture len]|] eqn:E; [|discriminate].
    intros _. apply matchHeadBranch_sound in E.
    destruct E as (w1 & w2 & c & rest & E & H).
    exists [], w1, w2, c, rest. auto.
  - destruct (matchHeadBranch (x :: s)) as [[capture len]|] eqn:E.
    + intros _. apply matchHeadBranch_sound in E.
      destruct E as (w1 & w2 & c & rest & E & H).
      exists [], w1, w2, c, rest. auto.
    + intros H. apply IH in H.
      destruct H as (before & w1 & w2 & c & rest & -> & H).
      exists (x :: before), w1, w2, c, rest. auto.
Qed.

Lemma matchHeadBranch_length (s capture : str) (len : nat) :
  matchHeadBranch s = Some (capture, len) -> 0 < len.
Proof.
  unfold matchHeadBranch.
  destruct (afterPrefix (lit "HEAD") s) as [[|w1 s1]|]; try discriminate.
  destruct (isWhitespace w1); [|discriminate].
  destruct (afterPrefix (lit "branch:") s1) as [[|w2 s2]|]; try discriminate.
  destruct (isWhitespace w2); [|discriminate].
  destruct (takeWhile _ s2); [discriminate|].
  intros E; injection E as _ <-. lia.
Qed.

Lemma searchHeadBranch_eq (s : str) (index : nat) :
  searchHeadBranch s index
  = match matchHeadBranch s with
    | Some (capture, len) => Some (capture, index + len)
    | None => match s with
              | [] => None
              | _ :: s' => searchHeadBranch s' (S index)
              end
    end.
Proof. destruct s; reflexivity. Qed.

Lemma searchHeadBranch_complete (before tail : str) (index : nat) :
  (exists capture len, matchHeadBranch tail = Some (capture, len)) ->
  exists capture e,
    searchHeadBranch (before ++ tail) index = Some (capture, e) /\ index < e.
Proof.
  intros (capture & len & E).
  revert index; induction before as [|x before IH]; intros index;
    rewrite searchHeadBranch_eq.
  - simpl app. rewrite E. apply matchHeadBranch_length in E.
    eexists _, _; split; [reflexivity | lia].
  - destruct (matchHeadBranch ((x :: before) ++ tail))
      as [[capture' len']|] eqn:E'.
    + apply matchHeadBranch_length in E'.
      eexists _, _; split; [reflexivity | lia].
    + destruct (IH (S index)) as (c' & e & S' & Lt).
      exists c', e. split; [exact S' | lia].
Qed.

Lemma HasHeadBranch_skipn (n : nat) (text : str) :
  HasHeadBranch (skipn n text) -> HasHeadBranch text.
Proof.
  intros (before & w1 & w2 & c & rest & E & H).
  exists (firstn n text ++ before), w1, w2, c, rest. split; [|exact H].
  rewrite <- (firstn_skipn n text) at 1. rewrite E, <- app_assoc. reflexivity.
Qed.

(** Without a match in the text the pattern fails wherever the search
    starts, and the next search starts at 0. *)
Lemma regexExec_none (text : str) (i : nat) :
  ~ HasHeadBranch text -> regexExec text i = (None, 0).
Proof.
  intros N. unfold regexExec.
  destruct (length text <? i); [reflexivity|].
  destruct (searchHeadBranch (skipn i text) i) as [[capture e]|] eqn:E;
    [|reflexivity].
  exfalso. apply N. apply HasHeadBranch_skipn with (n := i).
  eapply searchHeadBranch_sound; eassumption.
Qed.

Lemma regexExec_start (text : str) :
  regexExec text 0
  = match searchHeadBranch text 0 with
    | Some (capture, e) => (Some capture, e)
    | None => (None, 0)
    end.
Proof. reflexivity. Qed.

(** With a match in the text a search from the start succeeds, and the
    next search starts behind the match. *)
Lemma regexExec_some (text : str) :
  HasHeadBranch text ->
  exists capture e, regexExec text 0 = (Some capture, e) /\ 0 < e.
Proof.
  intros (before & w1 & w2 & c & rest & -> & W1 & W2 & L).
  rewrite regexExec_start.
  destruct (searchHeadBranch_complete before
              (lit "HEAD" ++ [w1] ++ lit "branch:" ++ [w2] ++ c :: rest) 0)
    as (capture & e & E & Lt).
  - destruct (matchHeadBranch_complete w1 w2 c rest W1 W2 L) as (cp & len & E).
    eauto.
  - rewrite E. eauto.
Qed.

End Pattern.

(** ** What a run hands to the runner *)

Section Frames.
Context {R : Runner}.

Lemma Issues_ret {A : Type} (P : str -> Prop) (a : A) : Issues P (ret a).
Proof. intros st. exists []. simpl. now rewrite app_nil_r. Qed.

Lemma Issues_bind {A B : Type} (P : str -> Prop) (m : M A) (k : A -> M B) :
  Issues P m -> (forall a, Issues P (k a)) -> Issues P (bind m k).
Proof.
  intros Hm Hk st. unfold bind.
  destruct (Hm st) as (new1 & E1 & F1).
  destruct (m st) as [[a|e] st1]; simpl in E1.
  - destruct (Hk a st1) as (new2 & E2 & F2).
    exists (new1 ++ new2). rewrite E2, E1, app_assoc.
    split; [reflexivity | now apply Forall_app].
  - exists new1. auto.
Qed.

Lemma Issues_consoleLog (P : str -> Prop) (message : str) :
  Issues P (consoleLog message).
Proof. intros st. exists []. simpl. now rewrite app_nil_r. Qed.

Lemma Issues_consoleError (P : str -> Prop) (message : str) :
  Issues P (consoleError message).
Proof. intros st. exists []. simpl. now rewrite app_nil_r. Qed.

Lemma Issues_regex (P : str -> Prop) (input : str) :
  Issues P (headBranchRegexExec input).
Proof.
  intros st. exists []. unfold headBranchRegexExec.
  destruct (regexExec input (lastIndex st)). simpl. now rewrite app_nil_r.
Qed.

(** [exec] hands its command to the runner, whatever comes of it. *)
Lemma exec_issued (command : str) (ignoreStderr : bool) (st : state) :
  issued (snd (exec command ignoreStderr st)) = issued st ++ [command]
  /\ world (snd (exec command ignoreStderr st))
     = snd (doExec (world st) command)
  /\ console (snd (exec command ignoreStderr st)) = console st
  /\ lastIndex (snd (exec command ignoreStderr st)) = lastIndex st.
Proof.
  unfold exec. destruct (doExec (world st) command) as [cb w].
  destruct (error cb); [simpl; auto|].
  destruct (nonEmpty (stderr cb) && negb ignoreStderr); simpl; auto.
Qed.

Lemma Issues_exec (P : str -> Prop) (command : str) (ignoreStderr : bool) :
  P command -> Issues P (exec command ignoreStderr).
Proof.
  intros H st. exists [command].
  split; [apply exec_issued | repeat constructor; exact H].
Qed.

Lemma Issues_getMainBranch (P : str -> Prop) (flags : flagSet) :
  P (lit "git remote show origin") -> Issues P (getMainBranch flags).
Proof.
  intros H. unfold getMainBranch.
  destruct (truthy (flags HEAD)); [apply Issues_ret|].
  apply Issues_bind; [now apply Issues_exec|]. intros remoteInfo.
  apply Issues_bind; [apply Issues_regex|]. intros [capture|].
  - apply Issues_bind; [apply Issues_consoleLog | intros; apply Issues_ret].
  - apply Issues_bind; [apply Issues_consoleError | intros; apply Issues_ret].
Qed.

Lemma Issues_deleteBranches (P : str -> Prop) (flags : flagSet)
    (m : jsval) (branches : list str) (n : Z) :
  (truthy (flags DRY_RUN) = false ->
   forall branch, In branch branches -> P (deleteCommand flags branch)) ->
  Issues P (deleteBranches flags m branches n).
Proof.
  revert n; induction branches as [|branch rest IH]; intros n H.
  - apply Issues_ret.
  - simpl deleteBranches.
    apply Issues_bind; [apply Issues_consoleLog|]. intros _.
    destruct (truthy (flags DRY_RUN)) eqn:D.
    + apply Issues_bind; [apply Issues_consoleLog|]. intros _.
      apply IH. discriminate.
    + intros st.
      destruct (exec_issued (deleteCommand flags branch) false st)
        as (E & _).
      assert (Hrest : forall k, Issues P (deleteBranches flags m rest k)).
      { intros k. apply IH. intros _ b I. apply H; [reflexivity | now right]. }
      destruct (exec (deleteCommand flags branch) false st) as [[out|e] st1];
        simpl in E.
      * destruct (Hrest n st1) as (new & E2 & F2).
        exists (deleteCommand flags branch :: new).
        rewrite E2, E, <- app_assoc. split; [reflexivity|].
        constructor; [apply H; [reflexivity | now left] | exact F2].
      * match goal with
        | |- context [deleteBranches flags m rest ?k ?s] =>
            destruct (Hrest k s) as (new & E2 & F2)
        end.
        exists (deleteCommand flags branch :: new).
        rewrite E2. simpl issued. rewrite E, <- app_assoc.
        split; [reflexivity|].
        constructor; [apply H; [reflexivity | now left] | exact F2].
Qed.

(** The commands of a whole [try] block: the four fixed ones and, unless
    the run is dry, deletions of branches. *)
Lemma Issues_cleanupBody (P : str -> Prop) (flags : flagSet) :
  P (lit "git remote show origin") -> P (lit "git branch") ->
  P (lit "git fetch -p") -> P (lit "git branch -r") ->
  (truthy (flags DRY_RUN) = false ->
   forall branch, P (deleteCommand flags branch)) ->
  Issues P (cleanupBody flags).
Proof.
  intros H1 H2 H3 H4 H5. unfold cleanupBody.
  apply Issues_bind; [now apply Issues_getMainBranch|]. intros m.
  destruct (negb (truthy m)); [apply Issues_ret|].
  apply Issues_bind; [now apply Issues_exec|]. intros localStdout.
  cbv zeta.
  destruct (notOnMain _ m); [apply Issues_consoleLog|].
  apply Issues_bind; [now apply Issues_exec|]. intros _.
  apply Issues_bind; [now apply Issues_exec|]. intros remoteStdout.
  destruct (branchesToDelete _ _ m) as [|b bs]; [apply Issues_consoleLog|].
  apply Issues_bind; [|intros; apply Issues_consoleLog].
  apply Issues_deleteBranches. intros D b' _. now apply H5.
Qed.

(** The flag that an argument activates, line 53. *)
Lemma activeFlagsFrom_cons (args : list str) (index : nat) (arg : str)
    (rest : list str) (currentFlags : flagSet) (st : state) :
  activeFlagsFrom args index (arg :: rest) currentFlags st
  = match applicable currentFlags arg with
    | Some applicableFlag =>
        let value :=
          if hasValue applicableFlag
          then match nth_error args (index + 1) with
               | Some v => JStr v
               | None => JUndefined
               end
          else JTrue in
        activeFlagsFrom args (S index) rest
          (setFlag currentFlags (name applicableFlag) value)
          (emit (Log (getMessage (name applicableFlag) value)) st)
    | None => activeFlagsFrom args (S index) rest currentFlags st
    end.
Proof. reflexivity. Qed.

(** Reading the flags touches the console only. *)
Lemma activeFlagsFrom_frame (args : list str) (rest : list str) :
  forall index currentFlags st,
    let st' := snd (activeFlagsFrom args index rest currentFlags st) in
    world st' = world st /\ issued st' = issued st
    /\ lastIndex st' = lastIndex st.
Proof.
  induction rest as [|arg rest IH]; intros index currentFlags st.
  - simpl. auto.
  - rewrite activeFlagsFrom_cons.
    destruct (applicable currentFlags arg) as [f|]; [|apply IH].
    cbv zeta.
    match goal with
    | |- context [activeFlagsFrom args ?i rest ?cf ?s] =>
        destruct (IH i cf s) as (A & B & C)
    end.
    split; [exact A | split; [exact B | exact C]].
Qed.

Lemma announce_frame (args : list str) (st : state) :
  world (announce args st) = world st
  /\ issued (announce args st) = issued st
  /\ lastIndex (announce args st) = lastIndex st.
Proof. destruct args; simpl; auto. Qed.

Lemma Starts_frame (args : list str) (st : state) (flags : flagSet)
    (st0 : state) :
  Starts args st flags st0 ->
  world st0 = world st /\ issued st0 = issued st
  /\ lastIndex st0 = lastIndex st.
Proof.
  intros [E _]. unfold getActiveFlags in E.
  pose proof (activeFlagsFrom_frame args args 0 noFlags (announce args st)) as F.
  rewrite E in F. simpl in F.
  destruct (announce_frame args st) as (A1 & A2 & A3).
  destruct F as (F1 & F2 & F3). repeat split; congruence.
Qed.

(** The commands of a whole run. *)
Lemma cleanup_issues (P : str -> Prop) (args : list str) (st : state) :
  P (lit "git remote show origin") -> P (lit "git branch") ->
  P (lit "git fetch -p") -> P (lit "git branch -r") ->
  (truthy (fst (getActiveFlags args (announce args st)) DRY_RUN) = false ->
   forall branch,
     P (deleteCommand (fst (getActiveFlags args (announce args st))) branch)) ->
  exists new,
    issued (cleanup args st) = issued st ++ new /\ Forall P new.
Proof.
  intros H1 H2 H3 H4 H5. unfold cleanup.
  pose proof (activeFlagsFrom_frame args args 0 noFlags (announce args st)) as F.
  fold (getActiveFlags args (announce args st)) in F.
  destruct (getActiveFlags args (announce args st)) as [flags st0].
  simpl in F, H5. destruct F as (_ & F & _).
  destruct (announce_frame args st) as (_ & A & _). rewrite A in F.
  destruct (truthy (flags HELP)).
  - exists []. rewrite app_nil_r. auto.
  - unfold tryCatch.
    destruct (Issues_cleanupBody P flags H1 H2 H3 H4 H5 st0) as (new & E & Fa).
    exists new. rewrite <- F.
    destruct (cleanupBody flags st0) as [[u|e] st']; simpl in *; auto.
Qed.

End Frames.

(** ** The Main Branch Resolver *)

Section Resolver.
Context {R : Runner}.

(** What [exec] makes of the answer of the runner. *)
Lemma exec_succeeded (command : str) (st : state) (cb : execCallback)
    (w : World) :
  doExec (world st) command = (cb, w) -> succeeded cb = true ->
  exec command false st
  = (Resolved (stdout cb),
     {| world := w; issued := issued st ++ [command];
        console := console st; lastIndex := lastIndex st |}).
Proof.
  intros E S. unfold exec. rewrite E. unfold succeeded in S.
  destruct (error cb); [discriminate|].
  apply negb_true_iff in S. rewrite S. reflexivity.
Qed.

Lemma exec_failed (command : str) (st : state) (cb : execCallback)
    (w : World) :
  doExec (world st) command = (cb, w) -> succeeded cb = false ->
  exists reason,
    exec command false st
    = (Rejected reason,
       {| world := w; issued := issued st ++ [command];
          console := console st; lastIndex := lastIndex st |}).
Proof.
  intros E S. unfold exec. rewrite E. unfold succeeded in S.
  destruct (error cb); [eauto|].
  apply negb_false_iff in S. rewrite S. simpl. eauto.
Qed.

(** Without an override and without a match the resolver reports the
    failure and returns [null]. *)
Lemma getMainBranch_fails (flags : flagSet) (st : state) (cb : execCallback)
    (w : World) :
  truthy (flags HEAD) = false ->
  doExec (world st) (lit "git remote show origin") = (cb, w) ->
  succeeded cb = true -> ~ HasHeadBranch (stdout cb) ->
  getMainBranch flags st
  = (Resolved JNull,
     {| world := w; issued := issued st ++ [lit "git remote show origin"];
        console := console st ++ [Err cannotFindHeadMessage];
        lastIndex := 0 |}).
Proof.
  intros H E S N. unfold getMainBranch. rewrite H. unfold bind at 1.
  rewrite (exec_succeeded _ st cb w E S).
  unfold bind at 1. unfold headBranchRegexExec. simpl lastIndex.
  rewrite (regexExec_none _ _ N). reflexivity.
Qed.

(** Without an override and with a failing query the resolver throws. *)
Lemma getMainBranch_rejects (flags : flagSet) (st : state)
    (cb : execCallback) (w : World) :
  truthy (flags HEAD) = false ->
  doExec (world st) (lit "git remote show origin") = (cb, w) ->
  succeeded cb = false ->
  exists reason,
    getMainBranch flags st
    = (Rejected reason,
       {| world := w; issued := issued st ++ [lit "git remote show origin"];
          console := console st; lastIndex := lastIndex st |}).
Proof.
  intros H E S. unfold getMainBranch. rewrite H. unfold bind at 1.
  destruct (exec_failed _ st cb w E S) as [reason ->]. eauto.
Qed.

(** An argument activates the head flag only if it is its key. *)
Lemma applicable_head (currentFlags : flagSet) (arg : str)
    (f : availableFlag) :
  applicable currentFlags arg = Some f -> name f = HEAD ->
  arg = lit "--head".
Proof.
  unfold applicable. intros F N. apply find_some in F.
  destruct F as [I C]. apply andb_true_iff in C. destruct C as [_ C].
  simpl in I. destruct I as [<-|[<-|[<-|[<-|[]]]]]; try discriminate N.
  cbn [keys existsb] in C. rewrite orb_false_r in C.
  apply eqb_spec in C. symmetry; exact C.
Qed.

Lemma setFlag_other (flags : flagSet) (n m : flagName) (v : jsval) :
  n <> m -> setFlag flags n v m = flags m.
Proof. unfold setFlag. destruct m, n; simpl; congruence. Qed.

(** Arguments without the key of the head flag leave it unset. *)
Lemma head_flag_absent (args rest : list str) :
  ~ In (lit "--head") rest ->
  forall index currentFlags st,
    currentFlags HEAD = JUndefined ->
    fst (activeFlagsFrom args index rest currentFlags st) HEAD = JUndefined.
Proof.
  induction rest as [|arg rest IH]; intros A index currentFlags st U.
  - exact U.
  - rewrite activeFlagsFrom_cons.
    assert (A' : ~ In (lit "--head") rest) by (intros I; apply A; now right).
    destruct (applicable currentFlags arg) as [f|] eqn:F; [|now apply IH].
    cbv zeta. apply IH; [exact A'|].
    rewrite setFlag_other; [exact U|].
    intros N. apply A. left.
    exact (applicable_head currentFlags arg f F N).
Qed.

(** A flag that is active stays as it is. *)
Lemma active_flag_stays (args rest : list str) (n : flagName) :
  forall index currentFlags st,
    truthy (currentFlags n) = true ->
    truthy (fst (activeFlagsFrom args index rest currentFlags st) n) = true.
Proof.
  induction rest as [|arg rest IH]; intros index currentFlags st T.
  - exact T.
  - rewrite activeFlagsFrom_cons.
    destruct (applicable currentFlags arg) as [f|] eqn:F; [|now apply IH].
    cbv zeta. apply IH. rewrite setFlag_other; [exact T|].
    intros N. unfold applicable in F. apply find_some in F.
    destruct F as [_ C]. apply andb_true_iff in C. destruct C as [C _].
    rewrite N, T in C. discriminate C.
Qed.

(** An argument that is the key of a flag without a value activates it,
    wherever it stands among the arguments. *)
Lemma key_activates (args rest : list str) (n : flagName) (key : str) :
  (forall currentFlags,
      truthy (currentFlags n) = false ->
      exists f, applicable currentFlags key = Some f
                /\ name f = n /\ hasValue f = false) ->
  In key rest ->
  forall index currentFlags st,
    truthy (fst (activeFlagsFrom args index rest currentFlags st) n) = true.
Proof.
  intros K. induction rest as [|arg rest IH]; intros I index currentFlags st.
  - destruct I.
  - destruct (truthy (currentFlags n)) eqn:T;
      [now apply active_flag_stays|].
    rewrite activeFlagsFrom_cons. destruct I as [->|I].
    + destruct (K currentFlags T) as (f & -> & <- & ->). cbv zeta.
      apply active_flag_stays. unfold setFlag.
      destruct (name f); reflexivity.
    + destruct (applicable currentFlags arg); now apply IH.
Qed.

(** [-f] and [--force] set the force flag and [--dry-run] the dry run. *)
Lemma force_flag_set (args : list str) (st : state) :
  In (lit "-f") args \/ In (lit "--force") args ->
  truthy (fst (getActiveFlags args st) FORCE) = true.
Proof.
  unfold getActiveFlags. intros [I|I].
  - apply (key_activates args args FORCE (lit "-f")); [|exact I].
    intros cf T. unfold applicable. cbn [find availableFlags name keys existsb].
    change (Str.eqb (lit "-h") (lit "-f")) with false.
    change (Str.eqb (lit "--help") (lit "-f")) with false.
    change (Str.eqb (lit "--dry-run") (lit "-f")) with false.
    change (Str.eqb (lit "-f") (lit "-f")) with true.
    rewrite T. cbn [orb andb negb]. rewrite !andb_false_r. eauto.
  - apply (key_activates args args FORCE (lit "--force")); [|exact I].
    intros cf T. unfold applicable. cbn [find availableFlags name keys existsb].
    change (Str.eqb (lit "-h") (lit "--force")) with false.
    change (Str.eqb (lit "--help") (lit "--force")) with false.
    change (Str.eqb (lit "--dry-run") (lit "--force")) with false.
    change (Str.eqb (lit "-f") (lit "--force")) with false.
    change (Str.eqb (lit "--force") (lit "--force")) with true.
    rewrite T. cbn [orb andb negb]. rewrite !andb_false_r. eauto.
Qed.

Lemma dry_run_flag_set (args : list str) (st : state) :
  In (lit "--dry-run") args ->
  truthy (fst (getActiveFlags args st) DRY_RUN) = true.
Proof.
  unfold getActiveFlags. intros I.
  apply (key_activates args args DRY_RUN (lit "--dry-run")); [|exact I].
  intros cf T. unfold applicable. cbn [find availableFlags name keys existsb].
  change (Str.eqb (lit "-h") (lit "--dry-run")) with false.
  change (Str.eqb (lit "--help") (lit "--dry-run")) with false.
  change (Str.eqb (lit "--dry-run") (lit "--dry-run")) with true.
  rewrite T. cbn [orb andb negb]. rewrite !andb_false_r. eauto.
Qed.

Lemma getActiveFlags_without_head (args : list str) (st : state) :
  ~ In (lit "--head") args ->
  truthy (fst (getActiveFlags args st) HEAD) = false.
Proof.
  intros A. unfold getActiveFlags.
  rewrite (head_flag_absent args args A 0 noFlags st); reflexivity.
Qed.


(** A run that gets past the flags is its [try] block. *)
Lemma cleanup_body (args : list str) (st : state) (flags : flagSet)
    (st0 : state) :
  Starts args st flags st0 ->
  cleanup args st
  = tryCatch (cleanupBody flags) (fun error => emit (Err error)) st0.
Proof. intros [E H]. unfold cleanup. rewrite E, H. reflexivity. Qed.

Lemma bind_eq {A B : Type} (m : M A) (k : A -> M B) (st : state) :
  bind m k st
  = match m st with
    | (Resolved a, st') => k a st'
    | (Rejected e, st') => (Rejected e, st')
    end.
Proof. reflexivity. Qed.

(** C6 (amended): if the flag set holds a head-branch override that is not
    empty, the resolver returns it and leaves the state as it is: whatever
    the remote would answer, no command is issued, the remote is not
    queried. *)
Theorem getMainBranch_override (flags : flagSet) (st : state) :
  truthy (flags HEAD) = true ->
  getMainBranch flags st = (Resolved (flags HEAD), st).
Proof. intros H. unfold getMainBranch. rewrite H. reflexivity. Qed.

(** C4: without a head override, when the answer to the query of the remote
    has no match of the pattern, the resolver returns [null] and the run
    stops: the query is the only command of the run (no listing, no fetch,
    no deletion), and the failure is what the console ends with.  The run
    stops in the same way when the query itself fails. *)
Theorem no_head_branch_stops_run (args : list str) (st : state)
    (flags : flagSet) (st0 : state) (cb : execCallback) (w : World) :
  Starts args st flags st0 ->
  truthy (flags HEAD) = false ->
  doExec (world st) (lit "git remote show origin") = (cb, w) ->
  ~ HasHeadBranch (stdout cb) ->
  issued (cleanup args st) = issued st ++ [lit "git remote show origin"]
  /\ world (cleanup args st) = w
  /\ (succeeded cb = true ->
      fst (getMainBranch flags st0) = Resolved JNull
      /\ console (cleanup args st) = console st0 ++ [Err cannotFindHeadMessage]).
Proof.
  intros S H E N.
  destruct (Starts_frame args st flags st0 S) as (Fw & Fi & _).
  rewrite <- Fw in E. rewrite (cleanup_body args st flags st0 S).
  unfold tryCatch, cleanupBody. rewrite bind_eq.
  destruct (succeeded cb) eqn:Sc.
  - rewrite (getMainBranch_fails flags st0 cb w H E Sc N). simpl.
    rewrite Fi. auto.
  - destruct (getMainBranch_rejects flags st0 cb w H E Sc) as [reason ->].
    simpl. rewrite Fi. split; [reflexivity|]. split; [reflexivity|].
    discriminate.
Qed.

End Resolver.

(** The override [--head develop] on the sample repository. *)
Lemma getMainBranch_override_witness :
  let flags := fst (getActiveFlags [lit "--head"; lit "develop"] sampleStart) in
  truthy (flags HEAD) = true
  /\ getMainBranch flags sampleStart
     = (Resolved (JStr (lit "develop")), sampleStart).
Proof.
  intros flags. split; [reflexivity|].
  exact (@getMainBranch_override sampleRunner flags sampleStart eq_refl).
Defined.

(** C6 as stated fails for the empty override: with the arguments
    [--head ''] the flag set holds the override [''], and the resolver
    queries the remote and returns the branch found there. *)
Lemma getMainBranch_empty_override_queries :
  let flags := fst (getActiveFlags [lit "--head"; []] sampleStart) in
  flags HEAD = JStr []
  /\ fst (getMainBranch flags sampleStart) = Resolved (JStr (lit "main"))
  /\ issued (snd (getMainBranch flags sampleStart))
     = [lit "git remote show origin"].
Proof. repeat split. Qed.

(** A run on the remote that does not tell its head branch. *)
Lemma no_head_branch_stops_run_witness :
  issued (cleanup [lit "--dry-run"] headlessStart)
  = [lit "git remote show origin"]
  /\ console (cleanup [lit "--dry-run"] headlessStart)
     = [Log (lit "Starting local branch cleanup ...");
        LogWith (lit "  with arguments:") [lit "--dry-run"];
        Log (lit "Doing dry run! Will not delete any branches.");
        Err cannotFindHeadMessage].
Proof.
  assert (N : ~ HasHeadBranch
                (lit "* remote origin" ++ newline
                 ++ lit "  Fetch URL: git@example.org:project.git" ++ newline)).
  { intros H. apply regexExec_some in H.
    destruct H as (capture & e & H & _). vm_compute in H. discriminate H. }
  destruct (@no_head_branch_stops_run headlessRunner
              [lit "--dry-run"] headlessStart
              (fst (getActiveFlags [lit "--dry-run"]
                      (announce [lit "--dry-run"] headlessStart)))
              (snd (getActiveFlags [lit "--dry-run"]
                      (announce [lit "--dry-run"] headlessStart)))
              _ tt (conj eq_refl eq_refl) eq_refl eq_refl N)
    as (I & _ & C).
  split; [exact I | exact (proj2 (C eq_refl))].
Defined.

(** C9: the resolver depends on what an earlier call left in
    [HEAD_BRANCH_REGEX]: on the sample repository, whose remote names its
    head branch, the first call detects [main] and leaves [lastIndex] behind
    the match, so that a second call on the same text finds nothing and
    returns [null]; the second run of the exported function stops there. *)
Theorem getMainBranch_second_call_fails :
  HasHeadBranch sampleRemoteInfo
  /\ fst (getMainBranch noFlags sampleStart) = Resolved (JStr (lit "main"))
  /\ lastIndex (snd (getMainBranch noFlags sampleStart)) = 35
  /\ fst (getMainBranch noFlags (snd (getMainBranch noFlags sampleStart)))
     = Resolved JNull
  /\ issued (cleanup [] (cleanup [] sampleStart))
     = issued (cleanup [] sampleStart) ++ [lit "git remote show origin"]
  /\ console (cleanup [] (cleanup [] sampleStart))
     = console (cleanup [] sampleStart)
       ++ [Log (lit "Starting local branch cleanup ...");
           Err cannotFindHeadMessage].
Proof.
  split; [|repeat split].
  exists (lit "* remote origin" ++ newline ++ lit "  "), 32%N, 32%N, 109%N,
    (lit "ain" ++ newline ++ lit "  Remote branch:" ++ newline).
  repeat split.
Qed.

(** ** The Repository State Validator *)

Section Validator.
Context {R : Runner}.

Lemma getMainBranch_issued (flags : flagSet) (st : state) :
  issued (snd (getMainBranch flags st)) = issued st ++ resolution flags.
Proof.
  unfold getMainBranch, resolution.
  destruct (truthy (flags HEAD)); [simpl; now rewrite app_nil_r|].
  rewrite bind_eq.
  destruct (exec_issued (lit "git remote show origin") false st) as (E & _).
  destruct (exec (lit "git remote show origin") false st) as [[out|e] st1];
    simpl in E; [|exact E].
  rewrite bind_eq. unfold headBranchRegexExec.
  destruct (regexExec out (lastIndex st1)) as [[capture|] i]; exact E.
Qed.

(** The commands of a run that reaches the validator: the resolution and
    the listing of the local branches. *)
Lemma ReachesValidator_issued (args : list str) (st : state)
    (flags : flagSet) (m : jsval) (localBranches : list str) (st2 : state) :
  ReachesValidator args st flags m localBranches st2 ->
  issued st2 = issued st ++ resolution flags ++ [lit "git branch"].
Proof.
  intros (st0 & st1 & localStdout & S & G & _ & E & _).
  destruct (Starts_frame args st flags st0 S) as (_ & Fi & _).
  pose proof (getMainBranch_issued flags st0) as I1. rewrite G in I1.
  destruct (exec_issued (lit "git branch") false st1) as (I2 & _).
  rewrite E in I2. simpl in I1, I2.
  rewrite I2, I1, Fi, <- app_assoc. reflexivity.
Qed.

(** A run that reaches the validator goes on with its verdict. *)
Lemma cleanup_validator (args : list str) (st : state) (flags : flagSet)
    (m : jsval) (localBranches : list str) (st2 : state) :
  ReachesValidator args st flags m localBranches st2 ->
  cleanup args st
  = tryCatch
      (if notOnMain
            (find (fun localBranch => includes localBranch (lit "*"))
               localBranches) m
       then consoleLog (notOnMainMessage (toStr m))
       else
         exec (lit "git fetch -p") true ;;;
         remoteStdout <- exec (lit "git branch -r") false ;;
         match branchesToDelete localBranches
                 (sanitizeBranchOutput remoteStdout) m with
         | [] => consoleLog (lit "No local branches need to be deleted.")
         | b :: bs =>
             amountDeletedBranches <-
               deleteBranches flags m
                 (branchesToDelete localBranches
                    (sanitizeBranchOutput remoteStdout) m)
                 (Z.of_nat
                    (length (branchesToDelete localBranches
                               (sanitizeBranchOutput remoteStdout) m))) ;;
             consoleLog (deletedMessage amountDeletedBranches)
         end)
      (fun error => emit (Err error)) st2.
Proof.
  intros (st0 & st1 & localStdout & S & G & T & E & ->).
  rewrite (cleanup_body args st flags st0 S).
  unfold tryCatch, cleanupBody. rewrite bind_eq, G, T.
  change (negb true) with false. cbv iota.
  rewrite bind_eq, E. reflexivity.
Qed.

(** A run that is stopped by the validator. *)
Lemma cleanup_not_on_main (args : list str) (st : state) (flags : flagSet)
    (m : jsval) (localBranches : list str) (st2 : state) :
  ReachesValidator args st flags m localBranches st2 ->
  notOnMain (find (fun localBranch => includes localBranch (lit "*"))
               localBranches) m = true ->
  cleanup args st = emit (Log (notOnMainMessage (toStr m))) st2.
Proof.
  intros V N. rewrite (cleanup_validator args st flags m localBranches st2 V).
  rewrite N. reflexivity.
Qed.

Lemma marked_token (token m : str) :
  startsWith token (lit "*") = true -> stripMarker token = m ->
  token = lit "*" ++ m.
Proof.
  destruct token as [|c token]; simpl; [discriminate|].
  rewrite andb_true_r. intros C. rewrite C. apply N.eqb_eq in C.
  intros <-. now subst c.
Qed.

Lemma stripMarker_marked (m : str) : stripMarker (lit "*" ++ m) = m.
Proof. reflexivity. Qed.

Lemma find_marker_none (localBranches : list str) :
  Forall (fun token => ~ In 42%N token) localBranches ->
  find (fun localBranch => includes localBranch (lit "*")) localBranches = None.
Proof.
  induction 1 as [|token l H _ IH]; [reflexivity|].
  simpl find. destruct (includes token (lit "*")) eqn:I; [|exact IH].
  apply includes_marker in I. contradiction.
Qed.

(** C5: the validator takes the first local token that carries the marker
    of the current branch.  If the token without the marker is not the main
    branch name, the run stops with the guidance as its last word: beyond
    the resolution and the listing of the local branches no command is
    issued, and the world stays as the listing left it.  If the token is
    the marker followed by the main branch name, the run goes on and
    fetches. *)
Theorem validator_gate (args : list str) (st : state) (flags : flagSet)
    (m : jsval) (localBranches : list str) (st2 : state) (token : str) :
  ReachesValidator args st flags m localBranches st2 ->
  find (fun localBranch => includes localBranch (lit "*")) localBranches
  = Some token ->
  (stripMarker token <> toStr m ->
   issued (cleanup args st)
   = issued st ++ resolution flags ++ [lit "git branch"]
   /\ world (cleanup args st) = world st2
   /\ console (cleanup args st)
      = console st2 ++ [Log (notOnMainMessage (toStr m))])
  /\ (startsWith token (lit "*") = true -> stripMarker token = toStr m ->
      exists more,
        issued (cleanup args st)
        = issued st ++ resolution flags
          ++ [lit "git branch"; lit "git fetch -p"] ++ more).
Proof.
  intros V F. pose proof (ReachesValidator_issued _ _ _ _ _ _ V) as I.
  split.
  - intros D.
    rewrite (cleanup_not_on_main args st flags m localBranches st2 V).
    + simpl. rewrite I. auto.
    + rewrite F. simpl. apply negb_true_iff, eqb_neq.
      intros ->. apply D. apply stripMarker_marked.
  - intros M E. apply (marked_token _ _ M) in E. subst token.
    rewrite (cleanup_validator args st flags m localBranches st2 V).
    rewrite F. unfold notOnMain. rewrite eqb_refl. simpl negb. cbv iota.
    unfold tryCatch. rewrite bind_eq.
    destruct (exec_issued (lit "git fetch -p") true st2) as (E1 & _).
    destruct (exec (lit "git fetch -p") true st2) as [[out|e] st3];
      simpl in E1.
    + match goal with
      | |- context [bind ?a ?k st3] =>
          assert (J : Issues (fun _ => True) (bind a k))
      end.
      { apply Issues_bind; [now apply Issues_exec|]. intros remoteStdout.
        destruct (branchesToDelete _ _ m); [apply Issues_consoleLog|].
        apply Issues_bind; [|intros; apply Issues_consoleLog].
        apply Issues_deleteBranches. trivial. }
      destruct (J st3) as (new & E2 & _). exists new.
      match goal with
      | |- context [bind ?a ?k st3] =>
          destruct (bind a k st3) as [[u|e] st']
      end; simpl in *; rewrite E2, E1, I, <- !app_assoc; reflexivity.
    + exists []. simpl. rewrite E1, I, <- !app_assoc. reflexivity.
Qed.

(** C10: if no local token contains the marker of the current branch, the
    run stops at the validator: beyond the resolution and the listing of the
    local branches no command is issued (no fetch, no remote listing, no
    deletion) and the console ends with the guidance. *)
Theorem no_current_branch_aborts (args : list str) (st : state)
    (flags : flagSet) (m : jsval) (localBranches : list str) (st2 : state) :
  ReachesValidator args st flags m localBranches st2 ->
  Forall (fun token => ~ In 42%N token) localBranches ->
  issued (cleanup args st)
  = issued st ++ resolution flags ++ [lit "git branch"]
  /\ world (cleanup args st) = world st2
  /\ console (cleanup args st)
     = console st2 ++ [Log (notOnMainMessage (toStr m))].
Proof.
  intros V F. pose proof (ReachesValidator_issued _ _ _ _ _ _ V) as I.
  rewrite (cleanup_not_on_main args st flags m localBranches st2 V).
  - simpl. rewrite I. auto.
  - rewrite (find_marker_none _ F). reflexivity.
Qed.

End Validator.

(** The sample repository reaches the validator, whichever branch is
    checked out. *)
Lemma offMain_reaches_validator :
  @ReachesValidator offMainRunner [] offMainStart noFlags (JStr (lit "main"))
    [lit "feature-a"; lit "*feature-b"; lit "feature-c"; lit "main"]
    (snd (exec (lit "git branch") false
            (snd (getMainBranch noFlags (announce [] offMainStart))))).
Proof.
  eexists _, _, _. repeat split.
Qed.

Lemma sample_reaches_validator :
  @ReachesValidator sampleRunner [] sampleStart noFlags (JStr (lit "main"))
    [lit "feature-a"; lit "feature-b"; lit "feature-c"; lit "*main"]
    (snd (exec (lit "git branch") false
            (snd (getMainBranch noFlags (announce [] sampleStart))))).
Proof.
  eexists _, _, _. repeat split.
Qed.

Lemma unmarked_reaches_validator :
  @ReachesValidator unmarkedRunner [] unmarkedStart noFlags
    (JStr (lit "main")) [lit "feature-a"; lit "main"]
    (snd (exec (lit "git branch") false
            (snd (getMainBranch noFlags (announce [] unmarkedStart))))).
Proof.
  eexists _, _, _. repeat split.
Qed.

(** With [feature-b] checked out the run stops after the listing; on [main]
    it fetches. *)
Lemma validator_gate_witness :
  (issued (cleanup [] offMainStart)
   = [lit "git remote show origin"; lit "git branch"]
   /\ console (cleanup [] offMainStart)
      = [Log (lit "Starting local branch cleanup ...");
         Log (lit "Detected 'main' as default branch.");
         Log (notOnMainMessage (lit "main"))])
  /\ exists more,
      issued (cleanup [] sampleStart)
      = [lit "git remote show origin"; lit "git branch"; lit "git fetch -p"]
        ++ more.
Proof.
  split.
  - destruct (@validator_gate offMainRunner [] offMainStart noFlags
                (JStr (lit "main")) _ _ (lit "*feature-b")
                offMain_reaches_validator eq_refl) as [A _].
    destruct A as (I & _ & C); [vm_compute; discriminate|].
    split; [exact I | exact C].
  - destruct (@validator_gate sampleRunner [] sampleStart noFlags
                (JStr (lit "main")) _ _ (lit "*main")
                sample_reaches_validator eq_refl) as [_ P].
    exact (P eq_refl eq_refl).
Defined.

(** A listing without a current branch stops the run. *)
Lemma no_current_branch_aborts_witness :
  Forall (fun token => ~ In 42%N token) [lit "feature-a"; lit "main"]
  /\ issued (cleanup [] unmarkedStart)
     = [lit "git remote show origin"; lit "git branch"]
  /\ console (cleanup [] unmarkedStart)
     = [Log (lit "Starting local branch cleanup ...");
        Log (lit "Detected 'main' as default branch.");
        Log (notOnMainMessage (lit "main"))].
Proof.
  assert (F : Forall (fun token => ~ In 42%N token)
                [lit "feature-a"; lit "main"]).
  { repeat constructor; vm_compute; intuition discriminate. }
  split; [exact F|].
  destruct (@no_current_branch_aborts unmarkedRunner [] unmarkedStart noFlags
              (JStr (lit "main")) _ _ unmarked_reaches_validator F)
    as (I & _ & C).
  split; [exact I | exact C].
Defined.

(** ** The Deletion Pipeline *)

Section Pipeline.
Context {R : Runner}.

(** One round of the pipeline. *)
Lemma deleteBranches_cons (flags : flagSet) (m : jsval) (branch : str)
    (rest : list str) (n : Z) (st : state) :
  deleteBranches flags m (branch :: rest) n st
  = let st1 := emit (Log (lit "Deleting " ++ branch ++ lit " ...")) st in
    if truthy (flags DRY_RUN) then
      deleteBranches flags m rest (n - 1)
        (emit (Log (lit "DRY RUN: Would execute '"
                    ++ deleteCommand flags branch ++ lit "' now.")) st1)
    else
      match exec (deleteCommand flags branch) false st1 with
      | (Resolved _, st') => deleteBranches flags m rest n st'
      | (Rejected error, st') =>
          deleteBranches flags m rest (n - 1)
            (emit (Err (if includes error (lit "not fully merged")
                        then notFullyMergedMessage branch (toStr m)
                        else error)) st')
      end.
Proof.
  simpl deleteBranches. rewrite bind_eq. unfold consoleLog at 1.
  cbv zeta. destruct (truthy (flags DRY_RUN)); reflexivity.
Qed.

(** A dry pipeline counts every candidate down and writes to the console
    only. *)
Lemma deleteBranches_dry (flags : flagSet) (m : jsval) :
  truthy (flags DRY_RUN) = true ->
  forall branches n st,
    fst (deleteBranches flags m branches n st)
    = Resolved (n - Z.of_nat (length branches))%Z
    /\ issued (snd (deleteBranches flags m branches n st)) = issued st
    /\ world (snd (deleteBranches flags m branches n st)) = world st
    /\ lastIndex (snd (deleteBranches flags m branches n st)) = lastIndex st
    /\ exists entries,
        console (snd (deleteBranches flags m branches n st))
        = console st ++ entries.
Proof.
  intros D branches.
  induction branches as [|branch rest IH]; intros n st.
  - simpl. rewrite Z.sub_0_r. repeat split.
    exists []. now rewrite app_nil_r.
  - rewrite deleteBranches_cons, D. cbv zeta.
    match goal with
    | |- context [deleteBranches flags m rest ?k ?s] =>
        destruct (IH k s) as (A & B & C & E & entries & F)
    end.
    rewrite A, B, C, E, F. simpl.
    repeat split.
    + f_equal. lia.
    + rewrite <- !app_assoc. eauto.
Qed.

(** A live pipeline hands the deletion of every candidate to the runner,
    in order, and counts down once for every failure. *)
Lemma deleteBranches_live (flags : flagSet) (m : jsval) :
  truthy (flags DRY_RUN) = false ->
  forall branches n st,
    fst (deleteBranches flags m branches n st)
    = Resolved
        (n - Z.of_nat (length branches)
         + Z.of_nat (successes (world st)
                       (map (deleteCommand flags) branches)))%Z
    /\ issued (snd (deleteBranches flags m branches n st))
       = issued st ++ map (deleteCommand flags) branches
    /\ exists entries,
        console (snd (deleteBranches flags m branches n st))
        = console st ++ entries.
Proof.
  intros D branches.
  induction branches as [|branch rest IH]; intros n st.
  - simpl. rewrite !app_nil_r. repeat split; [f_equal; lia|].
    exists []. now rewrite app_nil_r.
  - rewrite deleteBranches_cons, D. cbv zeta.
    simpl map. simpl successes. simpl length.
    set (st1 := emit (Log (lit "Deleting " ++ branch ++ lit " ...")) st).
    destruct (doExec (world st) (deleteCommand flags branch)) as [cb w] eqn:E.
    change (world st) with (world st1) in E.
    destruct (succeeded cb) eqn:S.
    + rewrite (exec_succeeded _ st1 cb w E S).
      match goal with
      | |- context [deleteBranches flags m rest ?k ?s] =>
          destruct (IH k s) as (A & B & entries & F)
      end.
      rewrite A, B, F. simpl. repeat split.
      * f_equal. lia.
      * now rewrite <- app_assoc.
      * rewrite <- app_assoc. eauto.
    + destruct (exec_failed _ st1 cb w E S) as [reason ->].
      match goal with
      | |- context [deleteBranches flags m rest ?k ?s] =>
          destruct (IH k s) as (A & B & entries & F)
      end.
      rewrite A, B, F. simpl. repeat split.
      * f_equal. lia.
      * now rewrite <- app_assoc.
      * rewrite <- !app_assoc. eauto.
Qed.

(** The pipeline never throws. *)
Lemma deleteBranches_resolves (flags : flagSet) (m : jsval)
    (branches : list str) (n : Z) (st : state) :
  exists n', fst (deleteBranches flags m branches n st) = Resolved n'.
Proof.
  destruct (truthy (flags DRY_RUN)) eqn:D.
  - destruct (deleteBranches_dry flags m D branches n st) as (A & _). eauto.
  - destruct (deleteBranches_live flags m D branches n st) as (A & _). eauto.
Qed.

(** The two variants of the command. *)
Lemma deleteCommand_variant (flags : flagSet) (branch : str) :
  deleteCommand flags branch
  = lit (if truthy (flags FORCE) then "git branch -D " else "git branch -d ")
    ++ branch.
Proof. unfold deleteCommand. destruct (truthy (flags FORCE)); reflexivity. Qed.

Lemma deleteCommand_isDeleteCommand (flags : flagSet) (branch : str) :
  isDeleteCommand (deleteCommand flags branch) = true.
Proof. unfold deleteCommand. destruct (truthy (flags FORCE)); reflexivity. Qed.

(** The commands of a run that reaches the pipeline: the resolution, the
    two listings and the fetch between them. *)
Lemma ReachesDeletion_issued (args : list str) (st : state)
    (flags : flagSet) (m : jsval) (toDelete : list str) (st4 : state) :
  ReachesDeletion args st flags m toDelete st4 ->
  issued st4
  = issued st ++ resolution flags
    ++ [lit "git branch"; lit "git fetch -p"; lit "git branch -r"].
Proof.
  intros (localBranches & st2 & fetched & st3 & remoteStdout
          & V & _ & E3 & E4 & _).
  pose proof (ReachesValidator_issued _ _ _ _ _ _ V) as I2.
  destruct (exec_issued (lit "git fetch -p") true st2) as (I3 & _).
  destruct (exec_issued (lit "git branch -r") false st3) as (I4 & _).
  rewrite E3 in I3. rewrite E4 in I4. simpl in I3, I4.
  rewrite I4, I3, I2, <- !app_assoc. reflexivity.
Qed.

(** A run that reaches the pipeline with candidates ends with the report
    of the count that the pipeline returns. *)
Lemma cleanup_deletion (args : list str) (st : state) (flags : flagSet)
    (m : jsval) (toDelete : list str) (st4 : state) (n : Z) :
  ReachesDeletion args st flags m toDelete st4 -> toDelete <> [] ->
  fst (deleteBranches flags m toDelete (Z.of_nat (length toDelete)) st4)
  = Resolved n ->
  cleanup args st
  = emit (Log (deletedMessage n))
      (snd (deleteBranches flags m toDelete (Z.of_nat (length toDelete)) st4)).
Proof.
  intros (localBranches & st2 & fetched & st3 & remoteStdout
          & V & F & E3 & E4 & ->) NE D.
  rewrite (cleanup_validator args st flags m localBranches st2 V).
  rewrite F. unfold notOnMain. rewrite eqb_refl.
  change (negb true) with false. cbv iota.
  unfold tryCatch. rewrite bind_eq, E3, bind_eq, E4.
  destruct (branchesToDelete localBranches (sanitizeBranchOutput remoteStdout) m)
    as [|b bs] eqn:B; [congruence|].
  rewrite bind_eq.
  destruct (deleteBranches flags m (b :: bs) (Z.of_nat (length (b :: bs))) st4)
    as [r st5].
  simpl in D. subst r. reflexivity.
Qed.

End Pipeline.

Section PipelineClaims.
Context {R : Runner}.

(** C2: in a dry run the pipeline hands no command to the runner and counts
    every candidate down to 0; a run that reaches the pipeline with candidates
    issues the resolution, the two listings and the fetch and nothing else,
    leaves the world as the remote listing left it and ends with the report
    of 0 deleted branches; and no run at all issues a deletion. *)
Theorem dry_run_deletes_nothing (flags : flagSet) :
  truthy (flags DRY_RUN) = true ->
  (forall m branches st,
      fst (deleteBranches flags m branches (Z.of_nat (length branches)) st)
      = Resolved 0%Z
      /\ issued (snd (deleteBranches flags m branches
                        (Z.of_nat (length branches)) st)) = issued st
      /\ world (snd (deleteBranches flags m branches
                       (Z.of_nat (length branches)) st)) = world st)
  /\ (forall args st m toDelete st4,
         ReachesDeletion args st flags m toDelete st4 -> toDelete <> [] ->
         issued (cleanup args st)
         = issued st ++ resolution flags
           ++ [lit "git branch"; lit "git fetch -p"; lit "git branch -r"]
         /\ world (cleanup args st) = world st4
         /\ exists entries,
             console (cleanup args st)
             = console st4 ++ entries
               ++ [Log (lit "Deleted 0 local branches!")])
  /\ (forall args st st0,
         getActiveFlags args (announce args st) = (flags, st0) ->
         exists new,
           issued (cleanup args st) = issued st ++ new
           /\ Forall (fun command => isDeleteCommand command = false) new).
Proof.
  intros D. split; [|split].
  - intros m branches st.
    destruct (deleteBranches_dry flags m D branches
                (Z.of_nat (length branches)) st) as (A & B & C & _).
    rewrite A, B, C, Z.sub_diag. auto.
  - intros args st m toDelete st4 Re NE.
    destruct (deleteBranches_dry flags m D toDelete
                (Z.of_nat (length toDelete)) st4)
      as (A & B & C & _ & entries & E).
    rewrite Z.sub_diag in A.
    rewrite (cleanup_deletion args st flags m toDelete st4 0 Re NE A).
    simpl. rewrite B, C, E, <- app_assoc.
    rewrite (ReachesDeletion_issued args st flags m toDelete st4 Re).
    eauto.
  - intros args st st0 E.
    apply cleanup_issues; try reflexivity.
    rewrite E. simpl fst. congruence.
Qed.

(** C3: in a run that is not dry the pipeline hands the deletion of every
    candidate to the runner, in the order of the candidates and whatever
    becomes of the others, and returns the number of the deletions that
    succeeded; a run that reaches the pipeline with candidates issues these
    deletions after the remote listing and ends with the report of that
    number. *)
Theorem deletion_failures_are_isolated (flags : flagSet) :
  truthy (flags DRY_RUN) = false ->
  (forall m branches st,
      fst (deleteBranches flags m branches (Z.of_nat (length branches)) st)
      = Resolved (Z.of_nat (successes (world st)
                              (map (deleteCommand flags) branches)))
      /\ issued (snd (deleteBranches flags m branches
                        (Z.of_nat (length branches)) st))
         = issued st ++ map (deleteCommand flags) branches)
  /\ (forall args st m toDelete st4,
         ReachesDeletion args st flags m toDelete st4 -> toDelete <> [] ->
         issued (cleanup args st)
         = issued st4 ++ map (deleteCommand flags) toDelete
         /\ exists entries,
             console (cleanup args st)
             = console st4 ++ entries
               ++ [Log (deletedMessage
                          (Z.of_nat (successes (world st4)
                                       (map (deleteCommand flags) toDelete))))]).
Proof.
  intros D. split.
  - intros m branches st.
    destruct (deleteBranches_live flags m D branches
                (Z.of_nat (length branches)) st) as (A & B & _).
    rewrite A, B. split; [f_equal; lia | reflexivity].
  - intros args st m toDelete st4 Re NE.
    destruct (deleteBranches_live flags m D toDelete
                (Z.of_nat (length toDelete)) st4) as (A & B & entries & E).
    rewrite Z.sub_diag, Z.add_0_l in A.
    rewrite (cleanup_deletion args st flags m toDelete st4 _ Re NE A).
    simpl. rewrite B, E, <- app_assoc. eauto.
Qed.

(** C8: the pipeline issues, for every candidate and in their order, the
    forced variant [git branch -D] of the deletion when the force flag is
    set and the safe variant [git branch -d] when it is not (and nothing
    in a dry run); every deletion that any run issues is of the variant that
    its force flag asks for; the runs of the sample repository with and
    without [--force] show both. *)
Theorem deleteCommand_follows_force_flag :
  (forall flags m branches n st,
      issued (snd (deleteBranches flags m branches n st))
      = issued st
        ++ (if truthy (flags DRY_RUN) then []
            else map (fun branch =>
                        lit (if truthy (flags FORCE)
                             then "git branch -D " else "git branch -d ")
                        ++ branch)
                     branches))
  /\ (forall args st flags st0,
         getActiveFlags args (announce args st) = (flags, st0) ->
         exists new,
           issued (cleanup args st) = issued st ++ new
           /\ Forall (fun command =>
                        isDeleteCommand command = true ->
                        exists branch,
                          command
                          = lit (if truthy (flags FORCE)
                                 then "git branch -D " else "git branch -d ")
                            ++ branch)
                     new)
  /\ issued (cleanup [lit "--force"] sampleStart)
     = [lit "git remote show origin"; lit "git branch"; lit "git fetch -p";
        lit "git branch -r"; lit "git branch -D feature-b";
        lit "git branch -D feature-c"]
  /\ issued (cleanup [] sampleStart)
     = [lit "git remote show origin"; lit "git branch"; lit "git fetch -p";
        lit "git branch -r"; lit "git branch -d feature-b";
        lit "git branch -d feature-c"].
Proof.
  split; [|split; [|split; reflexivity]].
  - intros flags m branches n st.
    destruct (truthy (flags DRY_RUN)) eqn:D.
    + destruct (deleteBranches_dry flags m D branches n st) as (_ & B & _).
      now rewrite B, app_nil_r.
    + destruct (deleteBranches_live flags m D branches n st) as (_ & B & _).
      rewrite B. f_equal. apply map_ext. apply deleteCommand_variant.
  - intros args st flags st0 E.
    apply cleanup_issues; try discriminate.
    rewrite E. simpl fst. intros _ branch _.
    exists branch. apply deleteCommand_variant.
Qed.

End PipelineClaims.

(** The sample repository reaches the pipeline with the candidates
    [feature-b] and [feature-c]. *)
Lemma sample_reaches_deletion :
  exists st4,
    @ReachesDeletion sampleRunner [] sampleStart noFlags (JStr (lit "main"))
      [lit "feature-b"; lit "feature-c"] st4.
Proof.
  eexists. eexists _, _, _, _, _.
  split; [exact sample_reaches_validator|]. repeat split.
Qed.

Lemma sample_dry_reaches_deletion :
  exists st4,
    @ReachesDeletion sampleRunner [lit "--dry-run"] sampleStart dryRunFlags
      (JStr (lit "main")) [lit "feature-b"; lit "feature-c"] st4.
Proof.
  eexists. eexists _, _, _, _, _.
  split; [eexists _, _, _|]; repeat split.
Qed.

(** A dry run on the sample repository. *)
Lemma dry_run_deletes_nothing_witness :
  truthy (dryRunFlags DRY_RUN) = true
  /\ issued (cleanup [lit "--dry-run"] sampleStart)
     = [lit "git remote show origin"; lit "git branch"; lit "git fetch -p";
        lit "git branch -r"]
  /\ exists front,
      console (cleanup [lit "--dry-run"] sampleStart)
      = front ++ [Log (lit "Deleted 0 local branches!")].
Proof.
  split; [reflexivity|].
  destruct sample_dry_reaches_deletion as [st4 Re].
  destruct (@dry_run_deletes_nothing sampleRunner dryRunFlags eq_refl)
    as (_ & Run & _).
  destruct (Run [lit "--dry-run"] sampleStart (JStr (lit "main"))
              [lit "feature-b"; lit "feature-c"] st4 Re)
    as (I & _ & entries & C); [discriminate|].
  split; [exact I|].
  exists (console st4 ++ entries). rewrite C. apply app_assoc.
Defined.

(** A run on the sample repository: the deletion of [feature-b] fails, the
    one of [feature-c] is issued all the same, and one branch is reported. *)
Lemma deletion_failures_are_isolated_witness :
  truthy (noFlags DRY_RUN) = false
  /\ successes (R := sampleRunner) tt
       [lit "git branch -d feature-b"; lit "git branch -d feature-c"] = 1
  /\ issued (cleanup [] sampleStart)
     = [lit "git remote show origin"; lit "git branch"; lit "git fetch -p";
        lit "git branch -r"; lit "git branch -d feature-b";
        lit "git branch -d feature-c"]
  /\ exists front,
      console (cleanup [] sampleStart)
      = front ++ [Log (lit "Deleted 1 local branch!")].
Proof.
  split; [reflexivity|]. split; [reflexivity|].
  destruct sample_reaches_deletion as [st4 Re].
  destruct (@deletion_failures_are_isolated sampleRunner noFlags eq_refl)
    as (_ & Run).
  destruct (Run [] sampleStart (JStr (lit "main"))
              [lit "feature-b"; lit "feature-c"] st4 Re)
    as (I & entries & C); [discriminate|].
  pose proof (ReachesDeletion_issued _ _ _ _ _ _ Re) as I4.
  split.
  - rewrite I, I4. reflexivity.
  - exists (console st4 ++ entries). rewrite C, app_assoc.
    destruct st4 as [[] i4 c4 l4]. reflexivity.
Defined.

(** A forced run on the sample repository issues forced deletions only. *)
Lemma deleteCommand_follows_force_flag_witness :
  exists new,
    issued (cleanup [lit "-f"] sampleStart) = issued sampleStart ++ new
    /\ Forall (fun command =>
                 isDeleteCommand command = true ->
                 exists branch, command = lit "git branch -D " ++ branch)
              new.
Proof.
  destruct (@deleteCommand_follows_force_flag sampleRunner) as (_ & Run & _).
  exact (Run [lit "-f"] sampleStart (setFlag noFlags FORCE JTrue) _ eq_refl).
Defined.

(** * Further properties of the module *)

(** ** Reading the flags *)

Section Flags.
Context {R : Runner}.

(** Evaluates the [find] of line 53 at a key that is a literal. *)
Ltac applicable_at_key T :=
  unfold applicable; cbn [find availableFlags name keys existsb];
  repeat match goal with
         | |- context [Str.eqb (lit ?a) (lit ?b)] =>
             let v := eval vm_compute in (Str.eqb (lit a) (lit b)) in
             change (Str.eqb (lit a) (lit b)) with v
         end;
  rewrite T; cbn [orb andb negb]; rewrite ?andb_false_r.

(** What [find] tells about the flag it returns. *)
Lemma applicable_some (currentFlags : flagSet) (arg : str)
    (f : availableFlag) :
  applicable currentFlags arg = Some f ->
  In f availableFlags /\ truthy (currentFlags (name f)) = false
  /\ In arg (keys f).
Proof.
  unfold applicable. intros F. apply find_some in F.
  destruct F as [I C]. apply andb_true_iff in C. destruct C as [C1 C2].
  split; [exact I|]. split; [now apply negb_true_iff in C1|].
  apply existsb_exists in C2. destruct C2 as (key & K & E).
  apply eqb_spec in E. now subst key.
Qed.

(** The reading of a list of arguments goes on where the reading of its
    front stopped. *)
Lemma activeFlagsFrom_app (args front rest : list str) :
  forall index currentFlags st,
    activeFlagsFrom args index (front ++ rest) currentFlags st
    = activeFlagsFrom args (index + length front) rest
        (fst (activeFlagsFrom args index front currentFlags st))
        (snd (activeFlagsFrom args index front currentFlags st)).
Proof.
  induction front as [|arg front IH]; intros index currentFlags st.
  - simpl. now rewrite Nat.add_0_r.
  - simpl app. rewrite !activeFlagsFrom_cons.
    simpl length.
    replace (index + S (length front)) with (S index + length front) by lia.
    destruct (applicable currentFlags arg) as [f|]; apply IH.
Qed.

(** A flag that is active keeps its value. *)
Lemma active_flag_kept (args rest : list str) (n : flagName) :
  forall index currentFlags st,
    truthy (currentFlags n) = true ->
    fst (activeFlagsFrom args index rest currentFlags st) n = currentFlags n.
Proof.
  induction rest as [|arg rest IH]; intros index currentFlags st T.
  - reflexivity.
  - rewrite activeFlagsFrom_cons.
    destruct (applicable currentFlags arg) as [f|] eqn:F; [|now apply IH].
    cbv zeta. destruct (applicable_some _ _ _ F) as (_ & U & _).
    assert (N : name f <> n) by (intros N; rewrite N, T in U; discriminate U).
    rewrite IH; rewrite setFlag_other; auto.
Qed.

(** Reading the flags only adds to the console. *)
Lemma activeFlagsFrom_console (args rest : list str) :
  forall index currentFlags st,
  exists entries,
    console (snd (activeFlagsFrom args index rest currentFlags st))
    = console st ++ entries.
Proof.
  induction rest as [|arg rest IH]; intros index currentFlags st.
  - exists []. simpl. now rewrite app_nil_r.
  - rewrite activeFlagsFrom_cons.
    destruct (applicable currentFlags arg) as [f|]; [|apply IH].
    cbv zeta.
    match goal with
    | |- context [activeFlagsFrom args ?i rest ?cf ?s] =>
        destruct (IH i cf s) as [entries E]
    end.
    rewrite E. simpl. rewrite <- app_assoc. eauto.
Qed.

(** X1: arguments of which none is a key of an available flag are ignored:
    no flag is active and the state, the console included, is left as it
    was. *)
Theorem unrecognized_arguments_are_ignored (args : list str) (st : state) :
  Forall (fun arg => ~ In arg (flat_map keys availableFlags)) args ->
  (forall n, fst (getActiveFlags args st) n = JUndefined)
  /\ snd (getActiveFlags args st) = st.
Proof.
  intros U. unfold getActiveFlags.
  assert (G : forall rest index,
             Forall (fun arg => ~ In arg (flat_map keys availableFlags)) rest ->
             activeFlagsFrom args index rest noFlags st = (noFlags, st)).
  { induction rest as [|arg rest IH]; intros index F; [reflexivity|].
    inversion_clear F as [|? ? A F'].
    rewrite activeFlagsFrom_cons.
    destruct (applicable noFlags arg) as [f|] eqn:E; [|now apply IH].
    exfalso. apply A. destruct (applicable_some _ _ _ E) as (I & _ & K).
    apply in_flat_map. eauto. }
  rewrite (G args 0 U). split; reflexivity.
Qed.

Lemma flagName_eqb_eq (a b : flagName) : flagName_eqb a b = true <-> a = b.
Proof. destruct a, b; simpl; split; congruence. Qed.

(** The message of a flag without a value is on the console once one of
    its keys is among the arguments. *)
Lemma key_logs (args rest : list str) (n : flagName) (key : str) :
  (forall currentFlags,
      truthy (currentFlags n) = false ->
      exists f, applicable currentFlags key = Some f
                /\ name f = n /\ hasValue f = false) ->
  (forall f, In f availableFlags -> name f = n -> hasValue f = false) ->
  In key rest ->
  forall index currentFlags st,
    truthy (currentFlags n) = false ->
    In (Log (getMessage n JTrue))
       (console (snd (activeFlagsFrom args index rest currentFlags st))).
Proof.
  intros K V. induction rest as [|arg rest IH];
    intros I index currentFlags st T; [destruct I|].
  rewrite activeFlagsFrom_cons.
  destruct (applicable currentFlags arg) as [f|] eqn:F.
  - cbv zeta. destruct (flagName_eqb (name f) n) eqn:N.
    + apply flagName_eqb_eq in N.
      destruct (applicable_some _ _ _ F) as (If & _ & _).
      rewrite (V f If N), N.
      match goal with
      | |- context [activeFlagsFrom args ?i rest ?cf ?s] =>
          destruct (activeFlagsFrom_console args rest i cf s) as [entries E]
      end.
      rewrite E. simpl. apply in_or_app. left. apply in_or_app. right.
      now left.
    + assert (N' : name f <> n).
      { intros E. apply flagName_eqb_eq in E. congruence. }
      apply IH.
      * destruct I as [->|I]; [|exact I].
        destruct (K currentFlags T) as (f0 & F0 & N0 & _). congruence.
      * rewrite setFlag_other; auto.
  - apply IH; [|exact T].
    destruct I as [->|I]; [|exact I].
    destruct (K currentFlags T) as (f0 & F0 & _). congruence.
Qed.

Lemma help_key_applicable (key : str) :
  key = lit "-h" \/ key = lit "--help" ->
  forall currentFlags,
    truthy (currentFlags HELP) = false ->
    exists f, applicable currentFlags key = Some f
              /\ name f = HELP /\ hasValue f = false.
Proof.
  intros [->| ->] cf T; applicable_at_key T; eauto.
Qed.

Lemma head_key_applicable (currentFlags : flagSet) :
  truthy (currentFlags HEAD) = false ->
  exists f, applicable currentFlags (lit "--head") = Some f
            /\ name f = HEAD /\ hasValue f = true.
Proof. intros T. applicable_at_key T. eauto. Qed.

(** X2: with [-h] or [--help] among the arguments the run prints the
    overview of the flags and returns: it hands no command to the runner and
    leaves the world and the regular expression as they were. *)
Theorem help_short_circuits (args : list str) (st : state) :
  In (lit "-h") args \/ In (lit "--help") args ->
  issued (cleanup args st) = issued st
  /\ world (cleanup args st) = world st
  /\ lastIndex (cleanup args st) = lastIndex st
  /\ In (Log (getMessage HELP JTrue)) (console (cleanup args st)).
Proof.
  intros I.
  assert (exists key, (key = lit "-h" \/ key = lit "--help") /\ In key args)
    as (key & Hk & Ik) by (destruct I; eauto).
  pose proof (key_activates args args HELP key (help_key_applicable key Hk) Ik
                0 noFlags (announce args st)) as T.
  assert (L : In (Log (getMessage HELP JTrue))
                (console (snd (getActiveFlags args (announce args st))))).
  { apply (key_logs args args HELP key (help_key_applicable key Hk));
      [|exact Ik | reflexivity].
    intros f If N. simpl in If.
    destruct If as [<-|[<-|[<-|[<-|[]]]]]; try discriminate N; reflexivity. }
  pose proof (activeFlagsFrom_frame args args 0 noFlags (announce args st)) as F.
  destruct (announce_frame args st) as (A1 & A2 & A3).
  unfold cleanup. fold (getActiveFlags args (announce args st)) in T, F.
  destruct (getActiveFlags args (announce args st)) as [flags st0].
  simpl in T, L, F. rewrite T. destruct F as (F1 & F2 & F3).
  repeat split; try congruence. exact L.
Qed.

(** X3: [-f] or [--force] sets the force flag and [--dry-run] the dry run,
    wherever the key stands among the arguments, also where it is read as
    the value of [--head]. *)
Theorem flag_keys_set_flags (args : list str) (st : state) :
  (In (lit "-f") args \/ In (lit "--force") args ->
   truthy (fst (getActiveFlags args st) FORCE) = true)
  /\ (In (lit "--dry-run") args ->
      truthy (fst (getActiveFlags args st) DRY_RUN) = true)
  /\ (forall front rest,
         args = front ++ lit "--head" :: lit "-f" :: rest ->
         ~ In (lit "--head") front ->
         fst (getActiveFlags args st) HEAD = JStr (lit "-f")
         /\ truthy (fst (getActiveFlags args st) FORCE) = true).
Proof.
  split; [apply force_flag_set|]. split; [apply dry_run_flag_set|].
  intros front rest -> A. split.
  - unfold getActiveFlags. rewrite activeFlagsFrom_app.
    rewrite activeFlagsFrom_cons.
    destruct (head_key_applicable
                (fst (activeFlagsFrom
                        (front ++ lit "--head" :: lit "-f" :: rest) 0 front
                        noFlags st))) as (f & -> & N & V).
    { rewrite (head_flag_absent _ front A 0 noFlags st); reflexivity. }
    cbv zeta. rewrite V, N.
    replace (nth_error (front ++ lit "--head" :: lit "-f" :: rest)
               (0 + length front + 1)) with (Some (lit "-f")).
    + rewrite active_flag_kept; reflexivity.
    + rewrite nth_error_app2 by lia.
      replace (0 + length front + 1 - length front) with 1 by lia.
      reflexivity.
  - apply force_flag_set. left. apply in_or_app. right. right. now left.
Qed.

(** X4: the head override is the argument behind the first [--head], when
    it is not empty; what follows does not change it. *)
Theorem head_override_is_first_value (front rest : list str) (value : str)
    (st : state) :
  ~ In (lit "--head") front -> value <> [] ->
  fst (getActiveFlags (front ++ lit "--head" :: value :: rest) st) HEAD
  = JStr value.
Proof.
  intros A NE. unfold getActiveFlags. rewrite activeFlagsFrom_app.
  rewrite activeFlagsFrom_cons.
  destruct (head_key_applicable
              (fst (activeFlagsFrom
                      (front ++ lit "--head" :: value :: rest) 0 front
                      noFlags st))) as (f & -> & N & V).
  { rewrite (head_flag_absent _ front A 0 noFlags st); reflexivity. }
  cbv zeta. rewrite V, N.
  replace (nth_error (front ++ lit "--head" :: value :: rest)
             (0 + length front + 1)) with (Some value).
  - rewrite active_flag_kept; unfold setFlag; simpl; [reflexivity|].
    now apply nonEmpty_spec.
  - rewrite nth_error_app2 by lia.
    replace (0 + length front + 1 - length front) with 1 by lia.
    reflexivity.
Qed.


End Flags.

(** Arguments that are no flags. *)
Lemma unrecognized_arguments_are_ignored_witness :
  Forall (fun arg => ~ In arg (flat_map keys availableFlags))
    [lit "--verbose"; lit "main"]
  /\ snd (getActiveFlags [lit "--verbose"; lit "main"] sampleStart)
     = sampleStart.
Proof.
  assert (F : Forall (fun arg => ~ In arg (flat_map keys availableFlags))
                [lit "--verbose"; lit "main"]).
  { repeat constructor; vm_compute; intuition discriminate. }
  split; [exact F|].
  exact (proj2 (@unrecognized_arguments_are_ignored sampleRunner _ sampleStart F)).
Defined.

(** A call for help between other arguments. *)
Lemma help_short_circuits_witness :
  issued (cleanup [lit "--force"; lit "--help"] sampleStart) = []
  /\ In (Log (getMessage HELP JTrue))
        (console (cleanup [lit "--force"; lit "--help"] sampleStart)).
Proof.
  destruct (@help_short_circuits sampleRunner [lit "--force"; lit "--help"]
              sampleStart) as (I & _ & _ & L).
  - right. right. left. reflexivity.
  - split; [exact I | exact L].
Defined.

(** [--head -f] uses [-f] twice. *)
Lemma flag_keys_set_flags_witness :
  fst (getActiveFlags [lit "--head"; lit "-f"] sampleStart) HEAD
  = JStr (lit "-f")
  /\ truthy (fst (getActiveFlags [lit "--head"; lit "-f"] sampleStart) FORCE)
     = true.
Proof.
  destruct (@flag_keys_set_flags sampleRunner [lit "--head"; lit "-f"]
              sampleStart) as (_ & _ & H).
  apply (H [] []); [reflexivity | intros []].
Defined.

(** The second [--head] is not looked at. *)
Lemma head_override_is_first_value_witness :
  fst (getActiveFlags
         ([lit "--dry-run"]
          ++ lit "--head" :: lit "develop" :: [lit "--head"; lit "next"])
         sampleStart) HEAD
  = JStr (lit "develop").
Proof.
  apply (@head_override_is_first_value sampleRunner).
  - vm_compute. intuition discriminate.
  - discriminate.
Defined.


(** ** The commands of a run *)

Section Commands.
Context {R : Runner}.

(** The resolver asks the remote only without an override. *)
Lemma Issues_getMainBranch_override (P : str -> Prop) (flags : flagSet) :
  (truthy (flags HEAD) = false -> P (lit "git remote show origin")) ->
  Issues P (getMainBranch flags).
Proof.
  intros H. destruct (truthy (flags HEAD)) eqn:T.
  - unfold getMainBranch. rewrite T. apply Issues_ret.
  - apply Issues_getMainBranch. now apply H.
Qed.

(** A [try] block whose commands satisfy [P] makes a run whose commands
    satisfy [P]. *)
Lemma tryCatch_issues (P : str -> Prop) (body : M unit) (st : state) :
  Issues P body ->
  exists new,
    issued (tryCatch body (fun error => emit (Err error)) st)
    = issued st ++ new
    /\ Forall P new.
Proof.
  intros I. destruct (I st) as (new & E & F). exists new.
  unfold tryCatch. destruct (body st) as [[u|e] st']; simpl in *; auto.
Qed.

(** What [exec] rejects with. *)
Lemma exec_rejected (command : str) (st : state) (cb : execCallback)
    (w : World) :
  doExec (world st) command = (cb, w) -> succeeded cb = false ->
  exec command false st
  = (Rejected (rejection cb),
     {| world := w; issued := issued st ++ [command];
        console := console st; lastIndex := lastIndex st |}).
Proof.
  intros E S. unfold exec, rejection. rewrite E. unfold succeeded in S.
  destruct (error cb); [reflexivity|].
  apply negb_false_iff in S. rewrite S. reflexivity.
Qed.

(** With [ignoreStderr] only the error of the runner counts. *)
Lemma exec_ignoring_stderr (command : str) (st : state) (cb : execCallback)
    (w : World) :
  doExec (world st) command = (cb, w) ->
  exec command true st
  = (match error cb with
     | Some message => Rejected (lit "Error: " ++ message)
     | None => Resolved (stdout cb)
     end,
     {| world := w; issued := issued st ++ [command];
        console := console st; lastIndex := lastIndex st |}).
Proof.
  intros E. unfold exec. rewrite E.
  destruct (error cb); [reflexivity|].
  rewrite andb_false_r. reflexivity.
Qed.

(** X6: with a head override that is not empty no run asks the remote for
    its head branch. *)
Theorem override_never_queries (args : list str) (st : state)
    (flags : flagSet) (st0 : state) :
  getActiveFlags args (announce args st) = (flags, st0) ->
  truthy (flags HEAD) = true ->
  exists new,
    issued (cleanup args st) = issued st ++ new
    /\ ~ In (lit "git remote show origin") new.
Proof.
  intros E T.
  pose proof (activeFlagsFrom_frame args args 0 noFlags (announce args st)) as F.
  fold (getActiveFlags args (announce args st)) in F. rewrite E in F.
  simpl in F. destruct F as (_ & F & _).
  destruct (announce_frame args st) as (_ & A & _). rewrite A in F.
  unfold cleanup. rewrite E. destruct (truthy (flags HELP)).
  { exists []. rewrite app_nil_r. auto. }
  rewrite <- F.
  destruct (tryCatch_issues
              (fun c => c <> lit "git remote show origin")
              (cleanupBody flags) st0) as (new & I & N).
  - unfold cleanupBody.
    apply Issues_bind;
      [apply Issues_getMainBranch_override; congruence|]. intros m.
    destruct (negb (truthy m)); [apply Issues_ret|].
    apply Issues_bind; [apply Issues_exec; discriminate|]. intros localStdout.
    cbv zeta. destruct (notOnMain _ m); [apply Issues_consoleLog|].
    apply Issues_bind; [apply Issues_exec; discriminate|]. intros _.
    apply Issues_bind; [apply Issues_exec; discriminate|]. intros remoteStdout.
    destruct (branchesToDelete _ _ m) as [|b bs]; [apply Issues_consoleLog|].
    apply Issues_bind; [|intros; apply Issues_consoleLog].
    apply Issues_deleteBranches. intros _ branch _.
    rewrite deleteCommand_variant.
    destruct (truthy (flags FORCE)); discriminate.
  - exists new. split; [exact I|].
    intros In'. rewrite Forall_forall in N. now apply (N _ In').
Qed.

(** X7: a run that reaches the validator deletes nothing but tokens of the
    local listing, and never the marked main branch: behind the listing it
    issues only the fetch, the remote listing and, unless it is dry,
    deletions of such tokens. *)
Theorem only_listed_branches_are_deleted (args : list str) (st : state)
    (flags : flagSet) (m : jsval) (localBranches : list str) (st2 : state) :
  ReachesValidator args st flags m localBranches st2 ->
  exists new,
    issued (cleanup args st) = issued st2 ++ new
    /\ Forall (fun command =>
                 command = lit "git fetch -p"
                 \/ command = lit "git branch -r"
                 \/ exists branch,
                      command = deleteCommand flags branch
                      /\ In branch localBranches
                      /\ branch <> lit "*" ++ toStr m
                      /\ truthy (flags DRY_RUN) = false)
              new.
Proof.
  intros V. rewrite (cleanup_validator args st flags m localBranches st2 V).
  apply tryCatch_issues.
  destruct (notOnMain _ m); [apply Issues_consoleLog|].
  apply Issues_bind; [apply Issues_exec; now left|]. intros _.
  apply Issues_bind; [apply Issues_exec; right; now left|].
  intros remoteStdout.
  destruct (branchesToDelete localBranches (sanitizeBranchOutput remoteStdout) m)
    as [|b bs] eqn:B; [apply Issues_consoleLog|].
  apply Issues_bind; [|intros; apply Issues_consoleLog].
  apply Issues_deleteBranches. intros D branch I.
  right. right. exists branch. split; [reflexivity|].
  rewrite <- B in I. unfold branchesToDelete in I.
  apply filter_In in I. destruct I as [I T].
  apply andb_true_iff in T. destruct T as [_ T].
  apply negb_true_iff, eqb_neq in T. auto.
Qed.

(** X8: the commands of every run follow one fixed order: they are a front
    part of the resolution, the local listing, the fetch and the remote
    listing, or, in a run that is not dry, all of these followed by
    deletions only.  No deletion comes before the four have succeeded, and
    no other command is ever issued. *)
Theorem commands_follow_the_fixed_order (args : list str) (st : state)
    (flags : flagSet) (st0 : state) :
  getActiveFlags args (announce args st) = (flags, st0) ->
  exists new,
    issued (cleanup args st) = issued st ++ new
    /\ ((exists rest,
            resolution flags
            ++ [lit "git branch"; lit "git fetch -p"; lit "git branch -r"]
            = new ++ rest)
        \/ (truthy (flags DRY_RUN) = false
            /\ exists branches,
                new = resolution flags
                      ++ [lit "git branch"; lit "git fetch -p";
                          lit "git branch -r"]
                      ++ map (deleteCommand flags) branches)).
Proof.
  intros E.
  pose proof (activeFlagsFrom_frame args args 0 noFlags (announce args st)) as F.
  fold (getActiveFlags args (announce args st)) in F. rewrite E in F.
  simpl in F. destruct F as (_ & F & _).
  destruct (announce_frame args st) as (_ & A & _). rewrite A in F.
  unfold cleanup. rewrite E. destruct (truthy (flags HELP)).
  { exists []. rewrite app_nil_r. split; [exact F|]. left. eexists. reflexivity. }
  unfold tryCatch, cleanupBody. rewrite bind_eq.
  pose proof (getMainBranch_issued flags st0) as G. rewrite F in G.
  destruct (getMainBranch flags st0) as [[m|e] st1]; simpl in G;
    [|exists (resolution flags); split; [exact G | left; eexists; reflexivity]].
  destruct (truthy m);
    [change (negb true) with false | change (negb false) with true];
    cbv iota;
    [|exists (resolution flags); split; [exact G | left; eexists; reflexivity]].
  rewrite bind_eq.
  destruct (exec_issued (lit "git branch") false st1) as (B & _).
  rewrite G, <- app_assoc in B.
  destruct (exec (lit "git branch") false st1) as [[localStdout|e] st2];
    simpl in B;
    [|exists (resolution flags ++ [lit "git branch"]);
      split; [exact B | left; exists [lit "git fetch -p"; lit "git branch -r"];
                        now rewrite <- app_assoc]].
  cbv zeta. destruct (notOnMain _ m);
    [exists (resolution flags ++ [lit "git branch"]);
     split; [exact B | left; exists [lit "git fetch -p"; lit "git branch -r"];
                       now rewrite <- app_assoc]|].
  rewrite bind_eq.
  destruct (exec_issued (lit "git fetch -p") true st2) as (Fe & _).
  rewrite B, <- !app_assoc in Fe. simpl app in Fe.
  destruct (exec (lit "git fetch -p") true st2) as [[fetched|e] st3];
    simpl in Fe;
    [|exists (resolution flags ++ [lit "git branch"; lit "git fetch -p"]);
      split; [exact Fe | left; exists [lit "git branch -r"];
                         now rewrite <- app_assoc]].
  rewrite bind_eq.
  destruct (exec_issued (lit "git branch -r") false st3) as (Rm & _).
  rewrite Fe, <- !app_assoc in Rm. simpl app in Rm.
  destruct (exec (lit "git branch -r") false st3) as [[remoteStdout|e] st4];
    simpl in Rm;
    [|exists (resolution flags
              ++ [lit "git branch"; lit "git fetch -p"; lit "git branch -r"]);
      split; [exact Rm | left; exists []; now rewrite app_nil_r]].
  destruct (branchesToDelete (sanitizeBranchOutput localStdout)
              (sanitizeBranchOutput remoteStdout) m) as [|b bs];
    [exists (resolution flags
             ++ [lit "git branch"; lit "git fetch -p"; lit "git branch -r"]);
     split; [exact Rm | left; exists []; now rewrite app_nil_r]|].
  rewrite bind_eq. destruct (truthy (flags DRY_RUN)) eqn:D.
  - destruct (deleteBranches_dry flags m D (b :: bs)
                (Z.of_nat (length (b :: bs))) st4) as (Da & Db & _).
    destruct (deleteBranches flags m (b :: bs)
                (Z.of_nat (length (b :: bs))) st4) as [r st5].
    simpl in Da, Db. subst r. simpl.
    exists (resolution flags
            ++ [lit "git branch"; lit "git fetch -p"; lit "git branch -r"]).
    split; [congruence | left; exists []; now rewrite app_nil_r].
  - destruct (deleteBranches_live flags m D (b :: bs)
                (Z.of_nat (length (b :: bs))) st4) as (Da & Db & _).
    destruct (deleteBranches flags m (b :: bs)
                (Z.of_nat (length (b :: bs))) st4) as [r st5].
    simpl fst in Da. simpl snd in Db. subst r. simpl issued.
    exists (resolution flags
            ++ [lit "git branch"; lit "git fetch -p"; lit "git branch -r"]
            ++ map (deleteCommand flags) (b :: bs)).
    split.
    + rewrite Db, Rm, <- !app_assoc. reflexivity.
    + right. split; [reflexivity | eauto].
Qed.

End Commands.

(** ** Commands that fail *)

Section Failures.
Context {R : Runner}.

(** X9: if the query of the remote fails, for an error of the runner or
    for output on the error stream, the run ends there: the query is its
    only command and the console ends with the reason, [Error: ...] or
    [Stderr: ...]. *)
Theorem failed_query_stops_run (args : list str) (st : state)
    (flags : flagSet) (st0 : state) (cb : execCallback) (w : World) :
  Starts args st flags st0 -> truthy (flags HEAD) = false ->
  doExec (world st) (lit "git remote show origin") = (cb, w) ->
  succeeded cb = false ->
  issued (cleanup args st) = issued st ++ [lit "git remote show origin"]
  /\ console (cleanup args st) = console st0 ++ [Err (rejection cb)]
  /\ world (cleanup args st) = w.
Proof.
  intros S H E F.
  destruct (Starts_frame args st flags st0 S) as (Fw & Fi & _).
  rewrite <- Fw in E. rewrite (cleanup_body args st flags st0 S).
  unfold tryCatch, cleanupBody. rewrite bind_eq.
  unfold getMainBranch. rewrite H, bind_eq.
  rewrite (exec_rejected _ st0 cb w E F). simpl. rewrite Fi. auto.
Qed.

(** X10: if the listing of the local branches fails, the run ends there:
    nothing is fetched, listed or deleted, and the console ends with the
    reason. *)
Theorem failed_local_listing_stops_run (args : list str) (st : state)
    (flags : flagSet) (st0 st1 : state) (m : jsval) (cb : execCallback)
    (w : World) :
  Starts args st flags st0 ->
  getMainBranch flags st0 = (Resolved m, st1) -> truthy m = true ->
  doExec (world st1) (lit "git branch") = (cb, w) ->
  succeeded cb = false ->
  issued (cleanup args st)
  = issued st ++ resolution flags ++ [lit "git branch"]
  /\ console (cleanup args st) = console st1 ++ [Err (rejection cb)]
  /\ world (cleanup args st) = w.
Proof.
  intros S G T E F.
  destruct (Starts_frame args st flags st0 S) as (_ & Fi & _).
  pose proof (getMainBranch_issued flags st0) as I. rewrite G, Fi in I.
  simpl in I.
  rewrite (cleanup_body args st flags st0 S).
  unfold tryCatch, cleanupBody. rewrite bind_eq, G, T.
  change (negb true) with false. cbv iota.
  rewrite bind_eq, (exec_rejected _ st1 cb w E F). simpl.
  rewrite I, <- app_assoc. auto.
Qed.

(** X11: the fetch may write to the error stream: unless the runner reports
    an error the run goes on to the remote listing, whatever the fetch
    printed; an error of the runner ends the run with the fetch as its last
    command. *)
Theorem fetch_tolerates_stderr (args : list str) (st : state)
    (flags : flagSet) (m : jsval) (localBranches : list str) (st2 : state)
    (cb : execCallback) (w : World) :
  ReachesValidator args st flags m localBranches st2 ->
  find (fun b => includes b (lit "*")) localBranches
  = Some (lit "*" ++ toStr m) ->
  doExec (world st2) (lit "git fetch -p") = (cb, w) ->
  (error cb = None ->
   exists more,
     issued (cleanup args st)
     = issued st2 ++ [lit "git fetch -p"; lit "git branch -r"] ++ more)
  /\ (forall message,
         error cb = Some message ->
         issued (cleanup args st) = issued st2 ++ [lit "git fetch -p"]
         /\ console (cleanup args st)
            = console st2 ++ [Err (lit "Error: " ++ message)]).
Proof.
  intros V F E.
  rewrite (cleanup_validator args st flags m localBranches st2 V).
  rewrite F. unfold notOnMain. rewrite eqb_refl.
  change (negb true) with false. cbv iota.
  unfold tryCatch. rewrite bind_eq, (exec_ignoring_stderr _ st2 cb w E).
  split.
  - intros ->. rewrite bind_eq.
    match goal with
    | |- context [exec (lit "git branch -r") false ?s] =>
        destruct (exec_issued (lit "git branch -r") false s) as (Is & _);
        destruct (exec (lit "git branch -r") false s)
          as [[remoteStdout|e] st4]
    end; simpl in Is; [|exists []; simpl; rewrite Is, <- app_assoc; reflexivity].
    destruct (branchesToDelete localBranches
                (sanitizeBranchOutput remoteStdout) m) as [|b bs] eqn:B.
    + exists []. simpl. rewrite Is, <- app_assoc. reflexivity.
    + rewrite bind_eq.
      destruct (Issues_deleteBranches (fun _ => True) flags m (b :: bs)
                  (Z.of_nat (length (b :: bs))) (fun _ _ _ => I) st4)
        as (new & E2 & _).
      exists new.
      destruct (deleteBranches flags m (b :: bs)
                  (Z.of_nat (length (b :: bs))) st4) as [[n|e] st5];
        simpl in *; rewrite E2, Is, <- !app_assoc; reflexivity.
  - intros message ->. simpl. auto.
Qed.

(** X12: if the listing of the remote branches fails, no candidate is
    computed and nothing is deleted: the listing is the last command and
    the console ends with the reason. *)
Theorem failed_remote_listing_deletes_nothing (args : list str) (st : state)
    (flags : flagSet) (m : jsval) (localBranches : list str) (st2 st3 : state)
    (fetched : str) (cb : execCallback) (w : World) :
  ReachesValidator args st flags m localBranches st2 ->
  find (fun b => includes b (lit "*")) localBranches
  = Some (lit "*" ++ toStr m) ->
  exec (lit "git fetch -p") true st2 = (Resolved fetched, st3) ->
  doExec (world st3) (lit "git branch -r") = (cb, w) ->
  succeeded cb = false ->
  issued (cleanup args st)
  = issued st2 ++ [lit "git fetch -p"; lit "git branch -r"]
  /\ console (cleanup args st) = console st3 ++ [Err (rejection cb)]
  /\ world (cleanup args st) = w.
Proof.
  intros V F Fe E S.
  destruct (exec_issued (lit "git fetch -p") true st2) as (I & _).
  rewrite Fe in I. simpl in I.
  rewrite (cleanup_validator args st flags m localBranches st2 V).
  rewrite F. unfold notOnMain. rewrite eqb_refl.
  change (negb true) with false. cbv iota.
  unfold tryCatch. rewrite bind_eq, Fe, bind_eq.
  rewrite (exec_rejected _ st3 cb w E S). simpl.
  rewrite I, <- app_assoc. auto.
Qed.

(** X13: a run that finds no candidate says so and ends: behind the remote
    listing no command is issued and the world stays as the listing left
    it. *)
Theorem no_candidates_no_deletion (args : list str) (st : state)
    (flags : flagSet) (m : jsval) (st4 : state) :
  ReachesDeletion args st flags m [] st4 ->
  issued (cleanup args st)
  = issued st ++ resolution flags
    ++ [lit "git branch"; lit "git fetch -p"; lit "git branch -r"]
  /\ world (cleanup args st) = world st4
  /\ console (cleanup args st)
     = console st4 ++ [Log (lit "No local branches need to be deleted.")].
Proof.
  intros Re.
  pose proof (ReachesDeletion_issued args st flags m [] st4 Re) as I.
  destruct Re as (localBranches & st2 & fetched & st3 & remoteStdout
                  & V & F & E3 & E4 & B).
  rewrite (cleanup_validator args st flags m localBranches st2 V).
  rewrite F. unfold notOnMain. rewrite eqb_refl.
  change (negb true) with false. cbv iota.
  unfold tryCatch. rewrite bind_eq, E3, bind_eq, E4, <- B. simpl.
  rewrite I. auto.
Qed.

End Failures.

(** The override [--head main] on the sample repository. *)
Lemma override_never_queries_witness :
  exists new,
    issued (cleanup [lit "--head"; lit "main"] sampleStart)
    = issued sampleStart ++ new
    /\ ~ In (lit "git remote show origin") new.
Proof.
  exact (@override_never_queries sampleRunner [lit "--head"; lit "main"]
           sampleStart (setFlag noFlags HEAD (JStr (lit "main"))) _
           eq_refl eq_refl).
Defined.

(** The deletions of the sample run are deletions of listed branches. *)
Lemma only_listed_branches_are_deleted_witness :
  exists (st2 : @state sampleRunner) new,
    issued (cleanup [] sampleStart) = issued st2 ++ new
    /\ Forall (fun command =>
                 command = lit "git fetch -p"
                 \/ command = lit "git branch -r"
                 \/ exists branch,
                      command = deleteCommand noFlags branch
                      /\ In branch [lit "feature-a"; lit "feature-b";
                                    lit "feature-c"; lit "*main"]
                      /\ branch <> lit "*" ++ lit "main"
                      /\ truthy (noFlags DRY_RUN) = false)
              new.
Proof.
  eexists.
  exact (@only_listed_branches_are_deleted sampleRunner [] sampleStart noFlags
           (JStr (lit "main")) _ _ sample_reaches_validator).
Defined.

(** The sample run issues the whole sequence and two deletions. *)
Lemma commands_follow_the_fixed_order_witness :
  exists new,
    issued (cleanup [] sampleStart) = issued sampleStart ++ new
    /\ ((exists rest,
            resolution noFlags
            ++ [lit "git branch"; lit "git fetch -p"; lit "git branch -r"]
            = new ++ rest)
        \/ (truthy (noFlags DRY_RUN) = false
            /\ exists branches,
                new = resolution noFlags
                      ++ [lit "git branch"; lit "git fetch -p";
                          lit "git branch -r"]
                      ++ map (deleteCommand noFlags) branches)).
Proof.
  exact (@commands_follow_the_fixed_order sampleRunner [] sampleStart noFlags
           _ eq_refl).
Defined.

(** Outside of a repository the query fails. *)
Lemma failed_query_stops_run_witness :
  issued (cleanup [] noRepositoryStart) = [lit "git remote show origin"]
  /\ console (cleanup [] noRepositoryStart)
     = [Log (lit "Starting local branch cleanup ...");
        Err (lit "Error: fatal: not a git repository")].
Proof.
  destruct (@failed_query_stops_run noRepositoryRunner [] noRepositoryStart
              noFlags _ _ tt (conj eq_refl eq_refl) eq_refl eq_refl eq_refl)
    as (I & C & _).
  split; [exact I | exact C].
Defined.

(** Outside of a repository, with an override, the listing fails. *)
Lemma failed_local_listing_stops_run_witness :
  issued (cleanup [lit "--head"; lit "main"] noRepositoryStart)
  = [lit "git branch"]
  /\ exists front,
      console (cleanup [lit "--head"; lit "main"] noRepositoryStart)
      = front ++ [Err (lit "Error: fatal: not a git repository")].
Proof.
  destruct (@failed_local_listing_stops_run noRepositoryRunner
              [lit "--head"; lit "main"] noRepositoryStart
              (setFlag noFlags HEAD (JStr (lit "main"))) _ _
              (JStr (lit "main")) _ tt
              (conj eq_refl eq_refl) eq_refl eq_refl eq_refl eq_refl)
    as (I & C & _).
  split; [exact I | eexists; exact C].
Defined.

Lemma chattyFetch_reaches_validator :
  @ReachesValidator chattyFetchRunner [] chattyFetchStart noFlags
    (JStr (lit "main"))
    [lit "feature-a"; lit "feature-b"; lit "feature-c"; lit "*main"]
    (snd (exec (lit "git branch") false
            (snd (getMainBranch noFlags (announce [] chattyFetchStart))))).
Proof. eexists _, _, _. repeat split. Qed.

Lemma offline_reaches_validator :
  @ReachesValidator offlineRunner [] offlineStart noFlags (JStr (lit "main"))
    [lit "feature-a"; lit "feature-b"; lit "feature-c"; lit "*main"]
    (snd (exec (lit "git branch") false
            (snd (getMainBranch noFlags (announce [] offlineStart))))).
Proof. eexists _, _, _. repeat split. Qed.

Lemma warning_reaches_validator :
  @ReachesValidator warningRunner [] warningStart noFlags (JStr (lit "main"))
    [lit "feature-a"; lit "feature-b"; lit "feature-c"; lit "*main"]
    (snd (exec (lit "git branch") false
            (snd (getMainBranch noFlags (announce [] warningStart))))).
Proof. eexists _, _, _. repeat split. Qed.

(** A fetch that reports its pruning goes on; a fetch without a connection
    ends the run. *)
Lemma fetch_tolerates_stderr_witness :
  (exists more,
      issued (cleanup [] chattyFetchStart)
      = [lit "git remote show origin"; lit "git branch"; lit "git fetch -p";
         lit "git branch -r"] ++ more)
  /\ issued (cleanup [] offlineStart)
     = [lit "git remote show origin"; lit "git branch"; lit "git fetch -p"]
  /\ exists front,
      console (cleanup [] offlineStart)
      = front ++ [Err (lit "Error: Command failed: git fetch -p")].
Proof.
  split.
  - destruct (@fetch_tolerates_stderr chattyFetchRunner [] chattyFetchStart
                noFlags (JStr (lit "main")) _ _ _ tt
                chattyFetch_reaches_validator eq_refl eq_refl) as (Go & _).
    exact (Go eq_refl).
  - destruct (@fetch_tolerates_stderr offlineRunner [] offlineStart
                noFlags (JStr (lit "main")) _ _ _ tt
                offline_reaches_validator eq_refl eq_refl) as (_ & Stop).
    destruct (Stop _ eq_refl) as (I & C).
    split; [exact I | eexists; exact C].
Defined.

(** A remote listing that warns ends the run without a deletion. *)
Lemma failed_remote_listing_deletes_nothing_witness :
  issued (cleanup [] warningStart)
  = [lit "git remote show origin"; lit "git branch"; lit "git fetch -p";
     lit "git branch -r"]
  /\ exists front,
      console (cleanup [] warningStart)
      = front ++ [Err (lit "Stderr: warning: ignoring broken ref")].
Proof.
  destruct (@failed_remote_listing_deletes_nothing warningRunner []
              warningStart noFlags (JStr (lit "main")) _ _ _ _ _ tt
              warning_reaches_validator eq_refl eq_refl eq_refl eq_refl)
    as (I & C & _).
  split; [exact I | eexists; exact C].
Defined.

(** A repository whose local branches are all on the remote. *)
Lemma no_candidates_no_deletion_witness :
  issued (cleanup [] cleanStart)
  = [lit "git remote show origin"; lit "git branch"; lit "git fetch -p";
     lit "git branch -r"]
  /\ exists front,
      console (cleanup [] cleanStart)
      = front ++ [Log (lit "No local branches need to be deleted.")].
Proof.
  assert (Re : exists st4,
             @ReachesDeletion cleanRunner [] cleanStart noFlags
               (JStr (lit "main")) [] st4).
  { eexists. eexists _, _, _, _, _.
    split; [eexists _, _, _|]; repeat split. }
  destruct Re as [st4 Re].
  destruct (@no_candidates_no_deletion cleanRunner [] cleanStart noFlags
              (JStr (lit "main")) st4 Re) as (I & _ & C).
  split; [exact I | eexists; exact C].
Defined.

(** ** The console of the pipeline *)

Section PipelineConsole.
Context {R : Runner}.

(** X14: a pipeline that is not dry writes one progress notice for every
    candidate and one error for every deletion that fails: the errors and the
    successes add up to the candidates. *)
Theorem every_failure_is_reported (flags : flagSet) (m : jsval) :
  truthy (flags DRY_RUN) = false ->
  forall branches n st,
  exists entries,
    console (snd (deleteBranches flags m branches n st))
    = console st ++ entries
    /\ length (filter isErr entries)
       + successes (world st) (map (deleteCommand flags) branches)
       = length branches
    /\ length (filter (fun e => negb (isErr e)) entries) = length branches.
Proof.
  intros D branches.
  induction branches as [|branch rest IH]; intros n st.
  - exists []. simpl. now rewrite app_nil_r.
  - rewrite deleteBranches_cons, D. cbv zeta.
    simpl map. simpl successes. simpl length.
    set (st1 := emit (Log (lit "Deleting " ++ branch ++ lit " ...")) st).
    destruct (doExec (world st) (deleteCommand flags branch)) as [cb w] eqn:E.
    change (world st) with (world st1) in E.
    destruct (succeeded cb) eqn:S.
    + rewrite (exec_succeeded _ st1 cb w E S).
      match goal with
      | |- context [deleteBranches flags m rest ?k ?s] =>
          destruct (IH k s) as (entries & C & Ne & Nl)
      end.
      exists (Log (lit "Deleting " ++ branch ++ lit " ...") :: entries).
      rewrite C. simpl. rewrite <- app_assoc. simpl in Ne.
      repeat split; lia.
    + rewrite (exec_rejected _ st1 cb w E S).
      match goal with
      | |- context [deleteBranches flags m rest ?k ?s] =>
          destruct (IH k s) as (entries & C & Ne & Nl)
      end.
      match type of C with
      | context [Err ?msg] =>
          exists (Log (lit "Deleting " ++ branch ++ lit " ...")
                  :: Err msg :: entries)
      end.
      rewrite C. simpl. rewrite <- !app_assoc. simpl in Ne.
      repeat split; lia.
Qed.

(** X15: a dry pipeline writes two notices for every candidate, in the order
    of the candidates: the progress notice and the command that a run that is
    not dry would issue for it, forced or safe as the force flag asks. *)
Theorem dry_run_announces_commands (flags : flagSet) (m : jsval) :
  truthy (flags DRY_RUN) = true ->
  forall branches n st,
    console (snd (deleteBranches flags m branches n st))
    = console st
      ++ flat_map
           (fun branch =>
              [Log (lit "Deleting " ++ branch ++ lit " ...");
               Log (lit "DRY RUN: Would execute '"
                    ++ lit (if truthy (flags FORCE)
                            then "git branch -D " else "git branch -d ")
                    ++ branch ++ lit "' now.")])
           branches.
Proof.
  intros D branches.
  induction branches as [|branch rest IH]; intros n st.
  - simpl. now rewrite app_nil_r.
  - rewrite deleteBranches_cons, D. cbv zeta. rewrite IH.
    rewrite deleteCommand_variant. cbn [console emit flat_map].
    rewrite <- !app_assoc. reflexivity.
Qed.

End PipelineConsole.

(** ** The detected name *)

Section Detection.
Context {R : Runner}.






End Detection.

(** ** The resolver across calls *)

Section ResolverCalls.
Context {R : Runner}.

Lemma regexExec_none_behind (text : str) (i : nat) :
  ~ HasHeadBranch (skipn i text) -> regexExec text i = (None, 0).
Proof.
  intros N. unfold regexExec.
  destruct (length text <? i); [reflexivity|].
  destruct (searchHeadBranch (skipn i text) i) as [[capture e]|] eqn:E;
    [|reflexivity].
  exfalso. apply N. eapply searchHeadBranch_sound; eassumption.
Qed.



(** X17: the resolver searches only behind the position that an earlier
    search left in its regular expression: if the answer of the remote has
    no match behind that position, the resolver reports that it cannot find
    the head branch and returns [null], even when the answer names the head
    branch before that position. *)
Theorem resolver_misses_head_before_lastIndex (flags : flagSet) (st : state)
    (cb : execCallback) (w : World) :
  truthy (flags HEAD) = false ->
  doExec (world st) (lit "git remote show origin") = (cb, w) ->
  succeeded cb = true ->
  ~ HasHeadBranch (skipn (lastIndex st) (stdout cb)) ->
  getMainBranch flags st
  = (Resolved JNull,
     {| world := w; issued := issued st ++ [lit "git remote show origin"];
        console := console st ++ [Err cannotFindHeadMessage];
        lastIndex := 0 |}).
Proof.
  intros H E S N. unfold getMainBranch. rewrite H, bind_eq.
  rewrite (exec_succeeded _ st cb w E S), bind_eq.
  unfold headBranchRegexExec. simpl lastIndex.
  rewrite (regexExec_none_behind _ _ N). reflexivity.
Qed.


End ResolverCalls.

(** ** The parser and what it feeds *)

Section ParserUse.

Lemma clean_no_newline (t : str) :
  Forall (fun c => isWhitespace c = false) t -> ~ In 10%N t.
Proof.
  intros F I. rewrite Forall_forall in F. apply F in I. discriminate I.
Qed.

Lemma stripWhitespace_clean_id (t : str) :
  Forall (fun c => isWhitespace c = false) t -> stripWhitespace t = t.
Proof.
  induction 1 as [|c t H _ IH]; [reflexivity|].
  unfold stripWhitespace in *. simpl. rewrite H. simpl. now rewrite IH.
Qed.

(** X19: the parser reads back what it wrote: tokens that are not empty
    and hold no white space, joined by line breaks, are parsed to
    themselves; so parsing the joined tokens of a parse changes nothing. *)
Theorem sanitizeBranchOutput_round_trip :
  (forall tokens,
      Forall (fun t => t <> [] /\ Forall (fun c => isWhitespace c = false) t)
        tokens ->
      sanitizeBranchOutput (join newline tokens) = tokens)
  /\ (forall output,
         sanitizeBranchOutput (join newline (sanitizeBranchOutput output))
         = sanitizeBranchOutput output).
Proof.
  assert (RT : forall tokens,
             Forall (fun t => t <> []
                              /\ Forall (fun c => isWhitespace c = false) t)
               tokens ->
             sanitizeBranchOutput (join newline tokens) = tokens).
  { intros tokens F.
    assert (K : filter nonEmpty (map stripWhitespace tokens) = tokens).
    { induction F as [|x l [NE C] _ IH]; [reflexivity|].
      simpl. rewrite (stripWhitespace_clean_id x C).
      destruct x; [congruence|]. simpl. now rewrite IH. }
    destruct tokens as [|t ts]; [reflexivity|].
    unfold sanitizeBranchOutput. rewrite split_join; [exact K|].
    eapply Forall_impl; [|exact F]. simpl.
    intros a [_ C]. now apply clean_no_newline. }
  split; [exact RT|].
  intros output. apply RT. apply Forall_forall. intros token H.
  unfold sanitizeBranchOutput in H. apply filter_In in H.
  destruct H as [H NE]. apply in_map_iff in H. destruct H as [l [<- _]].
  split; [now apply nonEmpty_spec | apply stripWhitespace_clean].
Qed.

(** The parser works line by line. *)
Lemma sanitizeBranchOutput_lines (line : str) (lines : list str) :
  Forall (fun l => ~ In 10%N l) (line :: lines) ->
  sanitizeBranchOutput (join newline (line :: lines))
  = filter nonEmpty (map stripWhitespace (line :: lines)).
Proof.
  intros H. unfold sanitizeBranchOutput. now rewrite split_join.
Qed.

Lemma find_marker_app (front rest : list str) :
  Forall (fun token => ~ In 42%N token) front ->
  find (fun b => includes b (lit "*")) (front ++ rest)
  = find (fun b => includes b (lit "*")) rest.
Proof.
  induction 1 as [|token l H _ IH]; [reflexivity|].
  simpl. destruct (includes token (lit "*")) eqn:I; [|exact IH].
  apply includes_marker in I. contradiction.
Qed.

(** X20: the validator finds the current branch of a listing in the format
    of [git branch]: when the first line with an asterisk is [* name], with
    a name without white space, the token that is compared with the marked
    main branch is [*name], whatever lines stand before and behind it. *)
Theorem current_branch_line_is_found (before behind : list str)
    (current : str) :
  Forall (fun l => ~ In 10%N l /\ ~ In 42%N l) before ->
  Forall (fun l => ~ In 10%N l) behind ->
  Forall (fun c => isWhitespace c = false) current -> current <> [] ->
  find (fun b => includes b (lit "*"))
    (sanitizeBranchOutput
       (join newline (before ++ (lit "* " ++ current) :: behind)))
  = Some (lit "*" ++ current).
Proof.
  intros B A C NE.
  assert (L : Forall (fun l => ~ In 10%N l)
                (before ++ (lit "* " ++ current) :: behind)).
  { apply Forall_app. split.
    - eapply Forall_impl; [|exact B]. simpl. tauto.
    - constructor; [|exact A].
      intros [E|[E|I]]; try discriminate E.
      now apply (clean_no_newline current C). }
  destruct (before ++ (lit "* " ++ current) :: behind) as [|l ls] eqn:E;
    [destruct before; discriminate E|].
  rewrite (sanitizeBranchOutput_lines l ls L), <- E.
  rewrite map_app, filter_app, find_marker_app.
  - simpl map. simpl filter.
    change (stripWhitespace (lit "* " ++ current))
      with (42%N :: stripWhitespace current).
    rewrite (stripWhitespace_clean_id current C). reflexivity.
  - apply Forall_forall. intros token I.
    apply filter_In in I. destruct I as [I _].
    apply in_map_iff in I. destruct I as (l0 & <- & I0).
    rewrite Forall_forall in B. destruct (B l0 I0) as [_ NM].
    intros M. apply NM. unfold stripWhitespace in M.
    apply filter_In in M. tauto.
Qed.

End ParserUse.

(** ** The remote listing and the candidates *)

Section RemoteListing.

Lemma existsb_endsWith_incl (remote remote' : list str) (token : str) :
  incl remote remote' ->
  existsb (fun r => endsWith r token) remote' = false ->
  existsb (fun r => endsWith r token) remote = false.
Proof.
  intros I E. rewrite existsb_endsWith in *. intros r H. apply E, I, H.
Qed.

(** X21: the remote listing only protects: a remote listing without
    entries makes every local token but the marked main branch a candidate,
    and entries added to a remote listing never add a candidate. *)
Theorem remote_listing_only_protects (localBranches : list str) (m : jsval) :
  (forall token,
      In token localBranches -> token <> lit "*" ++ toStr m ->
      In token (branchesToDelete localBranches [] m))
  /\ (forall remote remote' token,
         incl remote remote' ->
         In token (branchesToDelete localBranches remote' m) ->
         In token (branchesToDelete localBranches remote m)).
Proof.
  split.
  - intros token I N. unfold branchesToDelete. apply filter_In.
    split; [exact I|]. simpl. now apply negb_true_iff, eqb_neq.
  - intros remote remote' token S I. unfold branchesToDelete in *.
    apply filter_In in I. destruct I as [I T]. apply filter_In.
    split; [exact I|].
    apply andb_true_iff in T. destruct T as [T1 T2].
    apply negb_true_iff in T1.
    rewrite (existsb_endsWith_incl remote remote' token S T1), T2.
    reflexivity.
Qed.

End RemoteListing.

(** The pipeline of the sample run: one error, one success. *)
Lemma every_failure_is_reported_witness :
  exists entries,
    console (snd (deleteBranches noFlags (JStr (lit "main"))
                    [lit "feature-b"; lit "feature-c"] 2 sampleStart))
    = console sampleStart ++ entries
    /\ length (filter isErr entries)
       + successes (R := sampleRunner) tt
           (map (deleteCommand noFlags) [lit "feature-b"; lit "feature-c"])
       = 2
    /\ length (filter (fun e => negb (isErr e)) entries) = 2.
Proof.
  exact (@every_failure_is_reported sampleRunner noFlags (JStr (lit "main"))
           eq_refl [lit "feature-b"; lit "feature-c"] 2%Z sampleStart).
Defined.

(** The notices of a dry pipeline. *)
Lemma dry_run_announces_commands_witness :
  console (snd (deleteBranches dryRunFlags (JStr (lit "main"))
                  [lit "feature-b"; lit "feature-c"] 2 sampleStart))
  = [Log (lit "Deleting feature-b ...");
     Log (lit "DRY RUN: Would execute 'git branch -d feature-b' now.");
     Log (lit "Deleting feature-c ...");
     Log (lit "DRY RUN: Would execute 'git branch -d feature-c' now.")].
Proof.
  exact (@dry_run_announces_commands sampleRunner dryRunFlags
           (JStr (lit "main")) eq_refl [lit "feature-b"; lit "feature-c"]
           2%Z sampleStart).
Defined.



Lemma sampleRemoteInfo_names_head_once :
  ~ HasHeadBranch (skipn 35 sampleRemoteInfo).
Proof.
  intros H. apply regexExec_some in H.
  destruct H as (capture & e & H & _). vm_compute in H. discriminate H.
Qed.

(** The second resolution on the sample repository. *)
Lemma resolver_misses_head_before_lastIndex_witness :
  lastIndex (snd (getMainBranch noFlags sampleStart)) = 35
  /\ fst (getMainBranch noFlags (snd (getMainBranch noFlags sampleStart)))
     = Resolved JNull.
Proof.
  split; [reflexivity|].
  rewrite (@resolver_misses_head_before_lastIndex sampleRunner noFlags
             (snd (getMainBranch noFlags sampleStart)) _ tt
             eq_refl eq_refl eq_refl sampleRemoteInfo_names_head_once).
  reflexivity.
Defined.


(** Two tokens, written and read. *)
Lemma sanitizeBranchOutput_round_trip_witness :
  sanitizeBranchOutput (join newline [lit "*main"; lit "feature-a"])
  = [lit "*main"; lit "feature-a"].
Proof.
  apply (proj1 sanitizeBranchOutput_round_trip).
  repeat constructor; try discriminate.
Defined.

(** The listing of a repository on [main]. *)
Lemma current_branch_line_is_found_witness :
  find (fun b => includes b (lit "*"))
    (sanitizeBranchOutput
       (join newline ([lit "  feature-a"] ++ (lit "* " ++ lit "main")
                                              :: [lit "  zeta"; []])))
  = Some (lit "*" ++ lit "main").
Proof.
  apply current_branch_line_is_found.
  - repeat constructor; vm_compute; intuition discriminate.
  - repeat constructor; vm_compute; intuition discriminate.
  - repeat constructor.
  - discriminate.
Defined.

(** [feature-b] is a candidate with the longer remote listing, hence with
    the shorter one and with none. *)
Lemma remote_listing_only_protects_witness :
  In (lit "feature-b")
     (branchesToDelete [lit "*main"; lit "feature-a"; lit "feature-b"] []
        (JStr (lit "main")))
  /\ In (lit "feature-b")
        (branchesToDelete [lit "*main"; lit "feature-a"; lit "feature-b"]
           [lit "origin/main"] (JStr (lit "main"))).
Proof.
  destruct (remote_listing_only_protects
              [lit "*main"; lit "feature-a"; lit "feature-b"]
              (JStr (lit "main"))) as [E M].
  split.
  - apply E; [right; right; left; reflexivity | discriminate].
  - apply (M [lit "origin/main"] [lit "origin/main"; lit "origin/feature-a"]).
    + intros r [<-|[]]. left. reflexivity.
    + vm_compute. left. reflexivity.
Defined.

(** ** The count *)

Section Count.
Context {R : Runner}.

Lemma successes_bound (w : World) (commands : list str) :
  successes w commands <= length commands.
Proof.
  revert w; induction commands as [|c cs IH]; intros w; simpl; [lia|].
  destruct (doExec w c) as [cb w']. specialize (IH w').
  destruct (succeeded cb); lia.
Qed.

(** X22: the pipeline never throws, whatever the runner answers, and the
    number that it returns for the report lies between 0 and the number of
    candidates. *)
Theorem deleted_count_in_range (flags : flagSet) (m : jsval)
    (branches : list str) (st : state) :
  exists n,
    fst (deleteBranches flags m branches (Z.of_nat (length branches)) st)
    = Resolved n
    /\ (0 <= n <= Z.of_nat (length branches))%Z.
Proof.
  destruct (truthy (flags DRY_RUN)) eqn:D.
  - destruct (deleteBranches_dry flags m D branches
                (Z.of_nat (length branches)) st) as (A & _).
    rewrite A. eexists. split; [reflexivity | lia].
  - destruct (deleteBranches_live flags m D branches
                (Z.of_nat (length branches)) st) as (A & _).
    rewrite A. eexists. split; [reflexivity|].
    pose proof (successes_bound (world st) (map (deleteCommand flags) branches))
      as B.
    rewrite length_map in B. lia.
Qed.

End Count.
